(** * Graph assembly of langflow: [src/backend/langflow/graph/graph/base.py]

    A shallow embedding of the [Graph] class: the construction pipeline
    ([_build_nodes], [_build_edges], edge linking, [_build_node_params],
    [_remove_invalid_nodes]) and the query methods ([get_node],
    [get_node_neighbors], [get_children_by_node_type], [get_nodes_with_target]),
    followed by the properties of the specification that concern them.
    [build] hands over to [payload.get_root_node] and to the root node's own
    [build], which are not part of the sources and stay parameters.

    Python objects that are shared and mutated (the nodes) live in a heap and
    are named by their address; exceptions are values of the type [exn]. *)

From stdpp Require Import gmap strings list fin_maps.

Open Scope string_scope.
Open Scope list_scope.

(** ** Python values and exceptions *)

#[local] Set Warnings "-register-all".

(** The values that occur in a NodeSpec: strings, lists and dicts with string
    keys, the three types that the annotation of [Graph.__init__] names
    ([str], [List] and [Dict]). Values of other types ([None], numbers,
    booleans) are outside this type and no statement below speaks of them. A
    string is the sequence of its characters, an [ascii] each: characters
    beyond that range are outside the type as well. *)
Inductive pyval : Type :=
  | PStr (s : string)
  | PList (l : list pyval)
  | PDict (d : gmap string pyval).

(** The exceptions the code can raise: a missing dict key, a subscript or a
    hash on a value that does not support it, and the two [ValueError]s of
    [_build_edges] with their message. *)
Inductive exn : Type :=
  | KeyError (key : string)
  | TypeError
  | ValueError (msg : string).

Inductive result (A : Type) : Type :=
  | OK (a : A)
  | Raise (e : exn).
Arguments OK {A} a.
Arguments Raise {A} e.

Global Instance result_ret : MRet result := λ A a, OK a.
Global Instance result_bind : MBind result := λ A B k m,
  match m with
  | OK a => k a
  | Raise e => Raise e
  end.

(** [d[k]] on a dict whose keys are strings. *)
Definition dict_getitem (d : gmap string pyval) (k : string) : result pyval :=
  match d !! k with
  | Some v => OK v
  | None => Raise (KeyError k)
  end.

(** [v[k]] with a string [k]: a dict is looked up, a string or a list refuses
    a string subscript. *)
Definition getitem (v : pyval) (k : string) : result pyval :=
  match v with
  | PDict d => dict_getitem d k
  | PStr _ | PList _ => Raise TypeError
  end.

(** [hash(v)] as far as membership in a dict or a set needs it: a string is
    its own key, lists and dicts are unhashable. *)
Definition hashable (v : pyval) : result string :=
  match v with
  | PStr s => OK s
  | PList _ | PDict _ => Raise TypeError
  end.

(** [v == s] for a string [s]. *)
Definition eq_str (v : pyval) (s : string) : bool :=
  match v with
  | PStr s' => bool_decide (s' = s)
  | PList _ | PDict _ => false
  end.

(** What [list += v] appends: the elements of a list, the characters of a
    string (one string per [ascii]), the keys of a dict. *)
Definition iter_values (v : pyval) : list pyval :=
  match v with
  | PList l => l
  | PStr s => (λ c, PStr (String c EmptyString)) <$> String.list_ascii_of_string s
  | PDict d => PStr <$> (map_to_list d).*1
  end.

(** ** Node classes *)

(** The classes a node is constructed from: the base class [Node] and the
    three imported from [langflow.graph.node.types]. *)
Inductive NodeClass : Type :=
  | GenericNode      (* class Node *)
  | FileToolNode
  | LLMNode
  | ToolkitNode.

Global Instance NodeClass_eq_dec : EqDecision NodeClass.
Proof. solve_decision. Defined.

(** Addresses of node objects. *)
Abbreviation ref := nat (only parsing).

(** What a [params] dict holds: plain values, or a reference to a node (the
    LLM node is stored by reference, not copied). *)
Inductive param : Type :=
  | ParamVal (v : pyval)
  | ParamNode (r : ref).

Module Edge.
(** Modelled from the spec: the class [Edge] of [langflow.graph.edge.base] is
    not part of the sources; per the data model an edge holds references to its
    source and target node, and constructing one from two nodes does nothing
    else. *)
Record t : Type := mk {
  source : ref;
  target : ref;
}.
End Edge.

Global Instance Edge_eq_dec : EqDecision Edge.t.
Proof. solve_decision. Defined.

Module Node.
(** Modelled from the spec: the class [Node] of [langflow.graph.node.base] is
    not part of the sources; per the data model a node holds its identity
    [id], the [data] mapping of its NodeSpec, a mutable [params] mapping and
    the collection of its incident edges. [class] is the class it was
    constructed from, which [isinstance] reads. Two nodes are compared ([==],
    and as keys of a dict) by their address, as Python objects are unless
    their class says otherwise. *)
Record t : Type := mk {
  class : NodeClass;
  id : pyval;
  data : pyval;
  params : gmap string param;
  edges : list Edge.t;
}.

(** Modelled from the spec: the constructor [NodeClass(node)] of the missing
    class, which keeps [node["id"]] and [node["data"]] and starts with empty
    [params] and no edges. *)
Definition new (c : NodeClass) (node : gmap string pyval) : result t :=
  i ← dict_getitem node "id";
  d ← dict_getitem node "data";
  OK (mk c i d ∅ []).

(** Modelled from the spec: [add_edge] of the missing class, which appends to
    the collection of incident edges. *)
Definition add_edge (e : Edge.t) (n : t) : t :=
  mk (class n) (id n) (data n) (params n) (edges n ++ [e]).

(** A write to [node.params]. *)
Definition set_params (p : gmap string param) (n : t) : t :=
  mk (class n) (id n) (data n) p (edges n).

(** [isinstance(node, C)] for one of the four classes. *)
Definition isinstance (n : t) (c : NodeClass) : bool :=
  bool_decide (class n = c).
End Node.

(** ** The graph *)

(** The state of a [Graph] object: [nodes] and [edges] are its two attributes;
    [heap] holds the node objects they refer to, at their addresses. The
    constructor allocates the node of the [i]-th NodeSpec at address [i]. *)
Record Graph : Type := mkGraph {
  heap : list Node.t;
  nodes : list ref;
  edges : list Edge.t;
}.

Definition set_heap (h : list Node.t) (g : Graph) : Graph :=
  mkGraph h (nodes g) (edges g).

Definition set_nodes (ns : list ref) (g : Graph) : Graph :=
  mkGraph (heap g) ns (edges g).

(** The message of the two errors of [_build_edges]. *)
Definition source_not_found (i : string) : string :=
  ("Source node " ++ i ++ " not found")%string.
Definition target_not_found (i : string) : string :=
  ("Target node " ++ i ++ " not found")%string.

Section Build.

(** Modelled from the spec: [payload.get_root_node], the root-resolution
    collaborator of [build], which is given the graph and returns a node or
    [None]. *)
Variable get_root_node : Graph → option ref.

(** Modelled from the spec: [root_node.build()], the node's own recursive
    build, which is opaque: from the heap and the address of the node it gives
    the heap it leaves and what it returns or raises. [built] is the type of
    what it returns. *)
Variable built : Type.
Variable Node_build : list Node.t → ref → list Node.t * result built.

(** [build], lines 79-85. *)
Definition build (g : Graph) : Graph * result built :=
  match get_root_node g with
  | None => (g, Raise (ValueError "No root node found"))
  | Some root_node =>
      let (h, r) := Node_build (heap g) root_node in (set_heap h g, r)
  end.

End Build.

(** ** Example inputs *)

(** A small instance of the two tables and of the parameter-build step, and a
    few NodeSpecs and EdgeSpecs, on which the statements below are tried. *)
Definition example_FILE_TOOLS : gset string := {[ "JsonSpec" ]}.

Definition example_NODE_TYPE_MAP : gmap string NodeClass :=
  {[ "OpenAI" := LLMNode; "VectorStoreToolkit" := ToolkitNode ]}.

Definition example_build_params : list Node.t → ref → gmap string param :=
  λ _ _, ∅.

(** A NodeSpec with every field the code reads. *)
Definition node_spec (i ty lc : string) (bases : list string) : gmap string pyval :=
  {[ "id" := PStr i;
     "data" := PDict {[ "type" := PStr ty;
                        "node" := PDict {[ "template" := PDict {[ "_type" := PStr lc ]};
                                           "base_classes" := PList (PStr <$> bases) ]} ]} ]}.

(** A NodeSpec with [data] and [data.type] and nothing else under [data]. *)
Definition bare_node_spec (i ty : string) : gmap string pyval :=
  {[ "id" := PStr i; "data" := PDict {[ "type" := PStr ty ]} ]}.

Definition edge_spec (s t : string) : gmap string string :=
  {[ "source" := s; "target" := t ]}.

(** The example of the specification: two NodeSpecs that carry [id] and
    [data.type] only, and one edge between them. *)
Definition spec_example_nodes : list (gmap string pyval) :=
  [bare_node_spec "A" "PromptNode"; bare_node_spec "B" "ToolkitNode"].

Definition spec_example_edges : list (gmap string string) :=
  [edge_spec "A" "B"].

(** Two LLM nodes around a toolkit, and a file tool that no edge touches. *)
Definition flow_nodes : list (gmap string pyval) :=
  [node_spec "A" "OpenAI" "openai" ["BaseLLM"];
   node_spec "B" "VectorStoreToolkit" "toolkit" ["BaseToolkit"];
   node_spec "C" "ChatOpenAI" "OpenAI" ["BaseLLM"; "BaseChatModel"];
   node_spec "D" "JsonSpec" "json" ["JsonSpec"]].

Definition flow_edges : list (gmap string string) :=
  [edge_spec "A" "B"; edge_spec "C" "B"; edge_spec "B" "A"].

(** A node object as the constructor leaves it, and a graph that holds it. *)
Definition prompt_node : Node.t :=
  Node.mk GenericNode (PStr "P")
    (PDict {[ "type" := PStr "PromptTemplate";
              "node" := PDict {[ "base_classes" :=
                                   PList [PStr "BasePromptTemplate"] ]} ]})
    ∅ [].

Definition prompt_graph : Graph := mkGraph [prompt_node] [0] [].

(** Two NodeSpecs with the id ["A"] around one with the id ["B"]. *)
Definition twin_nodes : list (gmap string pyval) :=
  [node_spec "A" "OpenAI" "openai" [];
   node_spec "B" "VectorStoreToolkit" "toolkit" [];
   node_spec "A" "JsonSpec" "json" []].

(** A toolkit node and an LLM node as the constructor leaves them. *)
Definition toolkit_and_llm : Graph :=
  mkGraph [Node.mk ToolkitNode (PStr "T") (PDict ∅) ∅ [];
           Node.mk LLMNode (PStr "L") (PDict ∅) ∅ []] [0; 1] [].

(** A NodeSpec whose [data.node] has [template] and no [base_classes]. *)
Definition node_spec_no_bases (i ty lc : string) : gmap string pyval :=
  {[ "id" := PStr i;
     "data" := PDict {[ "type" := PStr ty;
                        "node" := PDict {[ "template" := PDict {[ "_type" := PStr lc ]} ]} ]} ]}.

Section Graph.

(** Modelled from the spec: [FILE_TOOLS] of
    [langflow.interface.tools.constants], the known set of file-tool type
    names. *)
Variable FILE_TOOLS : gset string.

(** Modelled from the spec: [NODE_TYPE_MAP] of
    [langflow.graph.graph.constants], the static table from type names to node
    classes. *)
Variable NODE_TYPE_MAP : gmap string NodeClass.

(** Modelled from the spec: [node._build_params()], the parameter-build step
    of a node, which is opaque and mutates the node's own [params]. It is
    given the heap and the address of the node and returns the new [params]. *)
Variable Node_build_params : list Node.t → ref → gmap string param.

(** [_get_node_class], lines 120-126. Both [in] tests hash their left
    operand. *)
Definition _get_node_class (node_type node_lc_type : pyval) : result NodeClass :=
  t ← hashable node_type;
  if bool_decide (t ∈ FILE_TOOLS) then OK FileToolNode
  else match NODE_TYPE_MAP !! t with
       | Some c => OK c
       | None =>
           l ← hashable node_lc_type;
           OK (match NODE_TYPE_MAP !! l with Some c => c | None => GenericNode end)
       end.

(** The body of the loop of [_build_nodes], lines 132-137. *)
Definition _build_node (node : gmap string pyval) : result Node.t :=
  node_data ← dict_getitem node "data";
  node_type ← getitem node_data "type";
  node_node ← getitem node_data "node";
  node_template ← getitem node_node "template";
  node_lc_type ← getitem node_template "_type";
  NodeClass ← _get_node_class node_type node_lc_type;
  Node.new NodeClass node.

(** [_build_nodes], lines 128-139: the nodes in the order of the NodeSpecs;
    the first NodeSpec that raises ends the loop. *)
Definition _build_nodes (_nodes : list (gmap string pyval)) : result (list Node.t) :=
  mapM _build_node _nodes.

(** [node.id == node_id] for the node at address [r]. *)
Definition has_id (h : list Node.t) (node_id : string) (r : ref) : bool :=
  match h !! r with
  | Some n => eq_str (Node.id n) node_id
  | None => false
  end.

(** [get_node], lines 68-70. *)
Definition get_node (g : Graph) (node_id : string) : option ref :=
  List.find (has_id (heap g) node_id) (nodes g).

(** The body of the loop of [_build_edges], lines 111-117. *)
Definition _build_edge (g : Graph) (edge : gmap string string) : result Edge.t :=
  match edge !! "source" with
  | None => Raise (KeyError "source")
  | Some s =>
      match edge !! "target" with
      | None => Raise (KeyError "target")
      | Some t =>
          match get_node g s with
          | None => Raise (ValueError (source_not_found s))
          | Some source =>
              match get_node g t with
              | None => Raise (ValueError (target_not_found t))
              | Some target => OK (Edge.mk source target)
              end
          end
      end
  end.

(** [_build_edges], lines 103-118. *)
Definition _build_edges (g : Graph) (_edges : list (gmap string string))
  : result (list Edge.t) :=
  mapM (_build_edge g) _edges.

(** [edge.source.add_edge(edge); edge.target.add_edge(edge)], lines 32-33. *)
Definition link_edge (h : list Node.t) (edge : Edge.t) : list Node.t :=
  alter (Node.add_edge edge) (Edge.target edge)
    (alter (Node.add_edge edge) (Edge.source edge) h).

(** The loop of lines 31-33. *)
Definition link_edges (g : Graph) : Graph :=
  set_heap (foldl link_edge (heap g) (edges g)) g.

(** First loop of [_build_node_params], lines 44-47: the state is the heap and
    the variable [llm_node]. *)
Definition build_params_step (st : list Node.t * option ref) (node : ref)
  : list Node.t * option ref :=
  let h := alter (Node.set_params (Node_build_params st.1 node)) node st.1 in
  match h !! node with
  | Some n => if Node.isinstance n LLMNode then (h, Some node) else (h, st.2)
  | None => (h, st.2)
  end.

(** Second loop of [_build_node_params], lines 50-52. *)
Definition inject_llm (llm_node : ref) (h : list Node.t) (node : ref) : list Node.t :=
  match h !! node with
  | Some n =>
      if Node.isinstance n ToolkitNode
      then alter (λ n, Node.set_params (<["llm" := ParamNode llm_node]> (Node.params n)) n)
             node h
      else h
  | None => h
  end.

(** [_build_node_params], lines 41-52. A node object is true as a condition,
    [None] is false. *)
Definition _build_node_params (g : Graph) : Graph :=
  let st := foldl build_params_step (heap g, None) (nodes g) in
  match st.2 with
  | Some llm_node => set_heap (foldl (inject_llm llm_node) st.1 (nodes g)) g
  | None => set_heap st.1 g
  end.

(** [_validate_node], lines 63-66. *)
Definition _validate_node (g : Graph) (node : ref) : bool :=
  match heap g !! node with
  | Some n => bool_decide (0 < length (Node.edges n))
  | None => false
  end.

(** [_remove_invalid_nodes], lines 54-61. *)
Definition _remove_invalid_nodes (g : Graph) : Graph :=
  set_nodes
    (filter (λ node, _validate_node g node
                     || (bool_decide (length (nodes g) = 1)
                         && bool_decide (length (edges g) = 0)))
       (nodes g)) g.

(** [__init__] and [_build_graph], lines 18-39. *)
Definition _build_graph (_nodes : list (gmap string pyval))
    (_edges : list (gmap string string)) : result Graph :=
  ns ← _build_nodes _nodes;
  let g := mkGraph ns (seq 0 (length ns)) [] in
  es ← _build_edges g _edges;
  let g := mkGraph ns (seq 0 (length ns)) es in
  let g := link_edges g in
  let g := _build_node_params g in
  OK (_remove_invalid_nodes g).

(** [get_nodes_with_target], lines 72-77. *)
Definition get_nodes_with_target (g : Graph) (node : ref) : list ref :=
  Edge.source <$> filter (λ edge, Edge.target edge = node) (edges g).

(** [neighbors[neighbor] = 0] if absent, then [neighbors[neighbor] += 1],
    lines 93-95 and 98-100. *)
Definition tally (neighbor : ref) (neighbors : gmap ref nat) : gmap ref nat :=
  let neighbors :=
    match neighbors !! neighbor with
    | None => <[neighbor := 0]> neighbors
    | Some _ => neighbors
    end in
  match neighbors !! neighbor with
  | Some c => <[neighbor := c + 1]> neighbors
  | None => neighbors
  end.

(** The body of the loop of [get_node_neighbors], lines 91-100. *)
Definition neighbors_step (node : ref) (neighbors : gmap ref nat) (edge : Edge.t)
  : gmap ref nat :=
  if bool_decide (Edge.source edge = node) then tally (Edge.target edge) neighbors
  else if bool_decide (Edge.target edge = node) then tally (Edge.source edge) neighbors
  else neighbors.

(** [get_node_neighbors], lines 87-101. *)
Definition get_node_neighbors (g : Graph) (node : ref) : gmap ref nat :=
  foldl (neighbors_step node) ∅ (edges g).

(** [node_type in node_types] on a list: some element equals the string. *)
Definition in_list (node_type : string) (node_types : list pyval) : bool :=
  existsb (λ v, eq_str v node_type) node_types.

(** Lines 144-146 of [get_children_by_node_type]: the list [node_types]. *)
Definition node_types_of (n : Node.t) : result (list pyval) :=
  ty ← getitem (Node.data n) "type";
  match Node.data n with
  | PDict d =>
      if bool_decide (is_Some (d !! "node")) then
        node_node ← getitem (Node.data n) "node";
        base_classes ← getitem node_node "base_classes";
        OK ([ty] ++ iter_values base_classes)
      else OK [ty]
  | PStr _ | PList _ => Raise TypeError
  end.

(** [get_children_by_node_type], lines 141-149. An address without an object
    is no Python reference; the call is given an error there. *)
Definition get_children_by_node_type (g : Graph) (node : ref) (node_type : string)
  : result (list ref) :=
  match heap g !! node with
  | Some n =>
      node_types ← node_types_of n;
      OK (if in_list node_type node_types then [node] else [])
  | None => Raise TypeError
  end.

(** ** Specification-side definitions *)

(** Variant resolution as the specification words it: four rules in order of
    precedence. *)
Inductive resolve_variant (node_type fallback_type : string) : NodeClass → Prop :=
  | resolve_file_tool :
      node_type ∈ FILE_TOOLS →
      resolve_variant node_type fallback_type FileToolNode
  | resolve_table c :
      node_type ∉ FILE_TOOLS →
      NODE_TYPE_MAP !! node_type = Some c →
      resolve_variant node_type fallback_type c
  | resolve_fallback c :
      node_type ∉ FILE_TOOLS →
      NODE_TYPE_MAP !! node_type = None →
      NODE_TYPE_MAP !! fallback_type = Some c →
      resolve_variant node_type fallback_type c
  | resolve_generic :
      node_type ∉ FILE_TOOLS →
      NODE_TYPE_MAP !! node_type = None →
      NODE_TYPE_MAP !! fallback_type = None →
      resolve_variant node_type fallback_type GenericNode.

(** The value at [data.node.template._type], if that path exists. *)
Definition lc_type_path (node_data : pyval) : option pyval :=
  match node_data with
  | PDict d =>
      match d !! "node" with
      | Some (PDict nd) =>
          match nd !! "template" with
          | Some (PDict td) => td !! "_type"
          | _ => None
          end
      | _ => None
      end
  | _ => None
  end.

(** An exception of a subscript: a missing key or a value that is no dict. *)
Definition is_lookup_error (e : exn) : Prop :=
  match e with
  | KeyError _ | TypeError => True
  | ValueError _ => False
  end.

(** [node["id"] == i] on a NodeSpec, and whether some NodeSpec of the input
    declares the id [i]. *)
Definition spec_has_id (i : string) (node : gmap string pyval) : bool :=
  match node !! "id" with
  | Some v => eq_str v i
  | None => false
  end.

Definition declares_id (_nodes : list (gmap string pyval)) (i : string) : bool :=
  existsb (spec_has_id i) _nodes.

(** An EdgeSpec one of whose ends is an id that no NodeSpec declares. *)
Definition dangling (_nodes : list (gmap string pyval)) (edge : gmap string string)
  : Prop :=
  ∃ i, (edge !! "source" = Some i ∨ edge !! "target" = Some i)
       ∧ declares_id _nodes i = false.

(** An edge that joins [n] and [m]: from [n] to [m] or from [m] to [n] (a
    self-loop on [n] joins [n] and [n], once). *)
Definition connects (n m : ref) (edge : Edge.t) : Prop :=
  (Edge.source edge = n ∧ Edge.target edge = m)
  ∨ (Edge.target edge = n ∧ Edge.source edge = m).

Global Instance connects_dec n m edge : Decision (connects n m edge).
Proof. unfold connects. apply _. Defined.

(** The number of edges of a list that join [n] and [m]. *)
Definition count_connecting (n m : ref) (es : list Edge.t) : nat :=
  length (filter (connects n m) es).

(** The edge touches the node at address [r]. *)
Definition incident (r : ref) (edge : Edge.t) : Prop :=
  Edge.source edge = r ∨ Edge.target edge = r.

Global Instance incident_dec r edge : Decision (incident r edge).
Proof. unfold incident. apply _. Defined.

(** What linking the edges of a list appends to the edge collection of the
    node at [r]: each edge once per end that is [r]. *)
Definition linked_to (r : ref) (es : list Edge.t) : list Edge.t :=
  es ≫= λ edge,
    (if decide (Edge.source edge = r) then [edge] else [])
    ++ (if decide (Edge.target edge = r) then [edge] else []).

Definition add_edges (es : list Edge.t) (n : Node.t) : Node.t :=
  Node.mk (Node.class n) (Node.id n) (Node.data n) (Node.params n)
    (Node.edges n ++ es).

(** Two states of a node object that differ at most in [params]. *)
Definition same_but_params (n n' : Node.t) : Prop :=
  Node.class n' = Node.class n ∧ Node.id n' = Node.id n
  ∧ Node.data n' = Node.data n ∧ Node.edges n' = Node.edges n.

(** Each node's own parameter-build step, run in list order and nothing
    else. *)
Definition run_build_params (h : list Node.t) (ns : list ref) : list Node.t :=
  foldl (λ h node, alter (Node.set_params (Node_build_params h node)) node h) h ns.

(** The node at [r] is an instance of [LLMNode]. *)
Definition is_llm (h : list Node.t) (r : ref) : bool :=
  match h !! r with
  | Some n => Node.isinstance n LLMNode
  | None => false
  end.

(** The node at [llm] is the last [LLMNode] in the order of the built nodes,
    which is the order of their addresses. *)
Definition is_last_llm (h : list Node.t) (llm : ref) : Prop :=
  is_llm h llm = true ∧ ∀ r, llm < r → is_llm h r = false.

(** The pre-pruning graph is the singleton case. *)
Definition singleton_case (n_nodes n_edges : nat) : Prop :=
  n_nodes = 1 ∧ n_edges = 0.

(** A NodeSpec with everything lines 132-137 read: [id], a [data] dict with
    [type] and the path [node.template._type], where [type] is a string and
    [_type] is one too unless dispatch stops at [type]. *)
Definition well_formed_spec (node : gmap string pyval) : Prop :=
  ∃ i d ty nd td lc,
    node !! "id" = Some i
    ∧ node !! "data" = Some (PDict d)
    ∧ d !! "type" = Some (PStr ty)
    ∧ d !! "node" = Some (PDict nd)
    ∧ nd !! "template" = Some (PDict td)
    ∧ td !! "_type" = Some lc
    ∧ (ty ∈ FILE_TOOLS ∨ is_Some (NODE_TYPE_MAP !! ty) ∨ ∃ l, lc = PStr l).

(** A NodeSpec in which every key that lines 132-137 read is there: [id],
    a [data] dict with [type], and the path [node.template._type]. *)
Definition has_read_keys (node : gmap string pyval) : Prop :=
  ∃ i d ty nd td lc,
    node !! "id" = Some i
    ∧ node !! "data" = Some (PDict d)
    ∧ d !! "type" = Some ty
    ∧ d !! "node" = Some (PDict nd)
    ∧ nd !! "template" = Some (PDict td)
    ∧ td !! "_type" = Some lc.

(** An EdgeSpec with both keys, each naming an id that a NodeSpec declares. *)
Definition resolvable (_nodes : list (gmap string pyval))
    (edge : gmap string string) : Prop :=
  ∃ s t, edge !! "source" = Some s ∧ edge !! "target" = Some t
         ∧ declares_id _nodes s = true ∧ declares_id _nodes t = true.

(** The sum of the counts of a neighbors mapping. *)
Definition total_count (neighbors : gmap ref nat) : nat :=
  map_fold (λ _ c acc, c + acc) 0 neighbors.

(** ** The result monad and [mapM] *)

Lemma bind_OK {A B} (a : A) (k : A → result B) : OK a ≫= k = k a.
Proof. reflexivity. Qed.

Lemma bind_Raise {A B} (e : exn) (k : A → result B) : Raise e ≫= k = Raise e.
Proof. reflexivity. Qed.

Lemma bind_OK_inv {A B} (m : result A) (k : A → result B) (b : B) :
  m ≫= k = OK b → ∃ a, m = OK a ∧ k a = OK b.
Proof. destruct m as [a|e]; [|done]. rewrite bind_OK. eauto. Qed.

Lemma bind_Raise_inv {A B} (m : result A) (k : A → result B) (e : exn) :
  m ≫= k = Raise e → m = Raise e ∨ ∃ a, m = OK a ∧ k a = Raise e.
Proof.
  destruct m as [a|e']; [rewrite bind_OK; eauto|].
  rewrite bind_Raise. intros [= ->]. by left.
Qed.

Lemma mapM_cons {A B} (f : A → result B) (x : A) (l : list A) :
  mapM f (x :: l) = y ← f x; k ← mapM f l; OK (y :: k).
Proof. reflexivity. Qed.

Ltac simpl_result :=
  repeat first [rewrite bind_OK | rewrite bind_Raise | rewrite mapM_cons].

Lemma mapM_OK_Forall2 {A B} (f : A → result B) (l : list A) (k : list B) :
  mapM f l = OK k ↔ Forall2 (λ x y, f x = OK y) l k.
Proof.
  revert k. induction l as [|x l IH]; intros k.
  - split.
    + intros [= <-]. constructor.
    + intros H. by inversion H.
  - rewrite mapM_cons. split.
    + intros (y & Hx & (k' & Hl & [= <-])%bind_OK_inv)%bind_OK_inv.
      constructor; [done|]. by apply IH.
    + intros H. inversion H as [|? y ? k' Hx Hl]; subst.
      apply IH in Hl. rewrite Hx, bind_OK, Hl. done.
Qed.

Lemma mapM_OK_length {A B} (f : A → result B) (l : list A) (k : list B) :
  mapM f l = OK k → length k = length l.
Proof. intros H%mapM_OK_Forall2. symmetry. by eapply Forall2_length. Qed.

(** The loop raises what its first failing element raises. *)
Lemma mapM_Raise_first {A B} (f : A → result B) (l1 l2 : list A) (k : list B)
    (x : A) (e : exn) :
  Forall2 (λ x y, f x = OK y) l1 k →
  f x = Raise e →
  mapM f (l1 ++ x :: l2) = Raise e.
Proof.
  intros Hl Hx. induction Hl as [|a b l1 k Ha _ IH].
  - simpl app. by rewrite mapM_cons, Hx.
  - simpl app. by rewrite mapM_cons, Ha, bind_OK, IH.
Qed.

Lemma mapM_Raise_elem {A B} (f : A → result B) (l : list A) (e : exn) :
  mapM f l = Raise e → ∃ x, x ∈ l ∧ f x = Raise e.
Proof.
  induction l as [|x l IH]; [done|].
  rewrite mapM_cons. intros [Hx|(y & Hx & H)]%bind_Raise_inv.
  - exists x. split; [constructor|done].
  - apply bind_Raise_inv in H as [H|(k & _ & ?)]; [|done].
    destruct (IH H) as (x' & ? & ?).
    exists x'. split; [by constructor|done].
Qed.

(** A loop over a list with a failing element raises. *)
Lemma mapM_Raise_exists {A B} (f : A → result B) (l : list A) (x : A) (e : exn) :
  x ∈ l → f x = Raise e → ∃ e', mapM f l = Raise e'.
Proof.
  intros Hin Hx. induction l as [|a l IH]; [by inversion Hin|].
  rewrite mapM_cons.
  destruct (f a) as [y|e'] eqn:Ha; [|by eexists].
  apply elem_of_cons in Hin as [->|Hin]; [congruence|].
  destruct (IH Hin) as [e' ->]. by eexists.
Qed.

(** ** Variant resolution *)

Lemma resolve_variant_fun t l c1 c2 :
  resolve_variant t l c1 → resolve_variant t l c2 → c1 = c2.
Proof. destruct 1; destruct 1; congruence || done. Qed.

(** C5: on every pair of type strings [_get_node_class] returns a class and
    never raises, and the class is the one the four rules of the
    specification select: FileTool for a file-tool type, else the table's
    entry for [node_type], else the table's entry for the fallback
    [node_lc_type], else Generic. *)
Theorem get_node_class_total (node_type node_lc_type : string) :
  ∃ c, _get_node_class (PStr node_type) (PStr node_lc_type) = OK c
       ∧ resolve_variant node_type node_lc_type c
       ∧ ∀ c', resolve_variant node_type node_lc_type c' → c' = c.
Proof.
  unfold _get_node_class. cbn [hashable]. rewrite bind_OK.
  assert (∀ c, resolve_variant node_type node_lc_type c →
    (∀ c', resolve_variant node_type node_lc_type c' → c' = c)) as Hfun.
  { intros c Hc c' Hc'. eapply resolve_variant_fun; eauto. }
  case_bool_decide as Hft.
  - eexists; split; [done|]. split; [|apply Hfun]; by constructor.
  - destruct (NODE_TYPE_MAP !! node_type) as [c|] eqn:Ht.
    + eexists; split; [done|]. split; [|apply Hfun]; by constructor.
    + rewrite bind_OK.
      destruct (NODE_TYPE_MAP !! node_lc_type) as [c|] eqn:Hl;
        (eexists; split; [done|]); (split; [|apply Hfun]);
        first [by apply resolve_fallback | by apply resolve_generic].
Qed.

(** ** Building the nodes *)

Lemma dict_getitem_Some d k v : d !! k = Some v → dict_getitem d k = OK v.
Proof. unfold dict_getitem. by intros ->. Qed.

Lemma dict_getitem_None d k : d !! k = None → dict_getitem d k = Raise (KeyError k).
Proof. unfold dict_getitem. by intros ->. Qed.

Lemma dict_getitem_Raise d k e : dict_getitem d k = Raise e → e = KeyError k.
Proof. unfold dict_getitem. destruct (d !! k); congruence. Qed.

Lemma getitem_Raise v k e : getitem v k = Raise e → is_lookup_error e.
Proof.
  destruct v; simpl; try (intros [= <-]; done).
  by intros ->%dict_getitem_Raise.
Qed.

Lemma get_node_class_Raise t l e : _get_node_class t l = Raise e → e = TypeError.
Proof.
  unfold _get_node_class.
  destruct t as [s| |]; cbn [hashable]; rewrite ?bind_OK, ?bind_Raise;
    try congruence.
  case_bool_decide; [done|].
  destruct (NODE_TYPE_MAP !! s); [done|].
  destruct l; cbn [hashable]; rewrite ?bind_OK, ?bind_Raise; congruence.
Qed.

Lemma Node_new_Raise c s e : Node.new c s = Raise e → is_lookup_error e.
Proof.
  unfold Node.new.
  intros [->%dict_getitem_Raise|(i & _ & H)]%bind_Raise_inv; [done|].
  apply bind_Raise_inv in H as [->%dict_getitem_Raise|(? & _ & ?)]; done.
Qed.

(** Whatever [_build_node] raises is the error of a subscript or of a hash:
    never one of the [ValueError]s of [_build_edges]. *)
Lemma build_node_Raise s e : _build_node s = Raise e → is_lookup_error e.
Proof.
  unfold _build_node.
  intros [->%dict_getitem_Raise|(? & _ & H)]%bind_Raise_inv; [done|].
  apply bind_Raise_inv in H as [?%getitem_Raise|(? & _ & H)]; [done|].
  apply bind_Raise_inv in H as [?%getitem_Raise|(? & _ & H)]; [done|].
  apply bind_Raise_inv in H as [?%getitem_Raise|(? & _ & H)]; [done|].
  apply bind_Raise_inv in H as [?%getitem_Raise|(? & _ & H)]; [done|].
  apply bind_Raise_inv in H as [->%get_node_class_Raise|(? & _ & H)]; [done|].
  by eapply Node_new_Raise.
Qed.

(** A NodeSpec with [data] and [data.type] but without the path
    [data.node.template._type] makes [_build_node] raise at line 134. *)
Lemma build_node_no_lc_type s d ty :
  s !! "data" = Some (PDict d) →
  d !! "type" = Some ty →
  lc_type_path (PDict d) = None →
  ∃ e, _build_node s = Raise e ∧ is_lookup_error e.
Proof.
  intros Hd Hty Hpath. unfold _build_node.
  rewrite (dict_getitem_Some _ _ _ Hd), bind_OK. cbn [getitem].
  rewrite (dict_getitem_Some _ _ _ Hty), bind_OK.
  simpl in Hpath. unfold dict_getitem at 1.
  destruct (d !! "node") as [[?|?|nd]|]; rewrite ?bind_OK, ?bind_Raise;
    cbn [getitem]; rewrite ?bind_Raise; [by eexists..| |by eexists].
  unfold dict_getitem at 1.
  destruct (nd !! "template") as [[?|?|td]|]; rewrite ?bind_OK, ?bind_Raise;
    cbn [getitem]; rewrite ?bind_Raise; [by eexists..| |by eexists].
  unfold dict_getitem at 1. rewrite Hpath, bind_Raise. by eexists.
Qed.

(** When the path is there and neither type string is known, the node is
    built from the base class. *)
Lemma build_node_generic s i d nd td ty lc :
  s !! "id" = Some i →
  s !! "data" = Some (PDict d) →
  d !! "type" = Some (PStr ty) →
  d !! "node" = Some (PDict nd) →
  nd !! "template" = Some (PDict td) →
  td !! "_type" = Some (PStr lc) →
  ty ∉ FILE_TOOLS →
  NODE_TYPE_MAP !! ty = None →
  NODE_TYPE_MAP !! lc = None →
  _build_node s = OK (Node.mk GenericNode i (PDict d) ∅ []).
Proof.
  intros Hi Hd Hty Hn Ht Hl Hft Hm1 Hm2.
  unfold _build_node, Node.new, _get_node_class.
  rewrite (dict_getitem_Some _ _ _ Hd), bind_OK. cbn [getitem].
  rewrite (dict_getitem_Some _ _ _ Hty), bind_OK.
  rewrite (dict_getitem_Some _ _ _ Hn), bind_OK. cbn [getitem].
  rewrite (dict_getitem_Some _ _ _ Ht), bind_OK. cbn [getitem].
  rewrite (dict_getitem_Some _ _ _ Hl), bind_OK. cbn [hashable].
  rewrite bind_OK, bool_decide_eq_false_2 by done.
  rewrite Hm1, bind_OK, Hm2, bind_OK.
  by rewrite (dict_getitem_Some _ _ _ Hi), bind_OK.
Qed.

(** C1 (as amended): the path [data.node.template._type] is not optional.
    For every input whose node list contains a NodeSpec with [data] and
    [data.type] but without that path, graph construction raises, with the
    error of a failed subscript; no node is built as Generic in its place. *)
Theorem build_graph_missing_lc_type_raises
    (_nodes : list (gmap string pyval)) (_edges : list (gmap string string))
    (s : gmap string pyval) (d : gmap string pyval) (ty : pyval) :
  s ∈ _nodes →
  s !! "data" = Some (PDict d) →
  d !! "type" = Some ty →
  lc_type_path (PDict d) = None →
  ∃ e, _build_graph _nodes _edges = Raise e ∧ is_lookup_error e.
Proof.
  intros Hin Hd Hty Hpath.
  destruct (build_node_no_lc_type s d ty) as (e & He & _); [done..|].
  destruct (mapM_Raise_exists _build_node _nodes s e) as [e' He']; [done..|].
  exists e'. unfold _build_graph, _build_nodes. rewrite He', bind_Raise.
  split; [done|].
  apply mapM_Raise_elem in He' as (s' & _ & Hs').
  by eapply build_node_Raise.
Qed.

(** ** Lookup by id *)

Lemma find_first {A} (f : A → bool) (l : list A) :
  match List.find f l with
  | Some x => ∃ pre post, l = pre ++ x :: post ∧ f x = true
                          ∧ ∀ y, y ∈ pre → f y = false
  | None => ∀ y, y ∈ l → f y = false
  end.
Proof.
  induction l as [|a l IH]; simpl.
  - intros y Hy. by inversion Hy.
  - destruct (f a) eqn:Ha.
    + exists [], l. split; [done|]. split; [done|]. intros y Hy. by inversion Hy.
    + destruct (List.find f l) as [x|].
      * destruct IH as (pre & post & -> & Hx & Hpre).
        exists (a :: pre), post. split; [done|]. split; [done|].
        intros y [->|Hy]%elem_of_cons; auto.
      * intros y [->|Hy]%elem_of_cons; auto.
Qed.

Lemma has_id_true h node_id r :
  has_id h node_id r = true ↔ ∃ n, h !! r = Some n ∧ Node.id n = PStr node_id.
Proof.
  unfold has_id, eq_str. split.
  - destruct (h !! r) as [n|]; [|done].
    destruct (Node.id n) as [s'| |] eqn:Hid; try done.
    intros ->%bool_decide_eq_true. by exists n.
  - intros (n & -> & ->). by apply bool_decide_eq_true.
Qed.

(** C9: [get_node] is a total function into an optional node. Its result is
    the first node of the node list whose id equals the given string, and it
    is [None] exactly when no node of the list has that id. *)
Theorem get_node_first_match (g : Graph) (node_id : string) :
  match get_node g node_id with
  | Some r =>
      ∃ pre post n,
        nodes g = pre ++ r :: post
        ∧ heap g !! r = Some n ∧ Node.id n = PStr node_id
        ∧ Forall (λ r', ∀ n', heap g !! r' = Some n' → Node.id n' ≠ PStr node_id) pre
  | None =>
      Forall (λ r', ∀ n', heap g !! r' = Some n' → Node.id n' ≠ PStr node_id) (nodes g)
  end.
Proof.
  unfold get_node.
  pose proof (find_first (has_id (heap g) node_id) (nodes g)) as H.
  assert (∀ l, (∀ y, y ∈ l → has_id (heap g) node_id y = false) →
    Forall (λ r', ∀ n', heap g !! r' = Some n' → Node.id n' ≠ PStr node_id) l)
    as Hno.
  { intros l Hl. apply Forall_forall. intros r' Hr' n' Hn' Hid.
    specialize (Hl r' Hr'). apply not_true_iff_false in Hl. apply Hl.
    apply has_id_true. eauto. }
  destruct (List.find _ _) as [r|].
  - destruct H as (pre & post & Hl & (n & Hn & Hid)%has_id_true & Hpre).
    exists pre, post, n. auto.
  - auto.
Qed.

(** ** Building the edges *)

Lemma mapM_Raise_split {A B} (f : A → result B) (l : list A) (e : exn) :
  mapM f l = Raise e →
  ∃ l1 x l2 k, l = l1 ++ x :: l2 ∧ Forall2 (λ x y, f x = OK y) l1 k ∧ f x = Raise e.
Proof.
  induction l as [|a l IH]; [done|].
  rewrite mapM_cons. intros [Ha|(y & Ha & H)]%bind_Raise_inv.
  - exists [], a, l, []. split; [done|]. split; [constructor|done].
  - apply bind_Raise_inv in H as [H|(k & _ & ?)]; [|done].
    destruct (IH H) as (l1 & x & l2 & k & -> & Hl1 & Hx).
    exists (a :: l1), x, l2, (y :: k). split; [done|]. split; [by constructor|done].
Qed.

Lemma build_node_fields s n :
  _build_node s = OK n →
  s !! "id" = Some (Node.id n) ∧ s !! "data" = Some (Node.data n)
  ∧ Node.params n = ∅ ∧ Node.edges n = [].
Proof.
  unfold _build_node.
  intros (? & _ & (? & _ & (? & _ & (? & _ & (? & _ & (c & _ & H)%bind_OK_inv)
    %bind_OK_inv)%bind_OK_inv)%bind_OK_inv)%bind_OK_inv)%bind_OK_inv.
  unfold Node.new, dict_getitem in H.
  destruct (s !! "id"); [|done]. rewrite bind_OK in H.
  destruct (s !! "data"); [|done]. rewrite bind_OK in H.
  by injection H as <-.
Qed.

Lemma find_None {A} (f : A → bool) (l : list A) :
  List.find f l = None ↔ ∀ x, x ∈ l → f x = false.
Proof.
  split.
  - intros H x Hx. pose proof (find_first f l) as Hf. rewrite H in Hf. auto.
  - intros H. pose proof (find_first f l) as Hf.
    destruct (List.find f l) as [x|]; [|done].
    destruct Hf as (pre & post & -> & Hx & _).
    rewrite H in Hx; [done|]. apply elem_of_app. right. constructor.
Qed.

(** Over the freshly built node list, [get_node] finds a node for exactly the
    ids that a NodeSpec declares. *)
Lemma get_node_built _nodes ns es i :
  _build_nodes _nodes = OK ns →
  get_node (mkGraph ns (seq 0 (length ns)) es) i = None
  ↔ declares_id _nodes i = false.
Proof.
  intros Hns%mapM_OK_Forall2. unfold get_node, declares_id. simpl.
  rewrite find_None.
  assert (existsb (spec_has_id i) _nodes = false
          ↔ ∀ r, r < length ns → has_id ns i r = false) as ->.
  { induction Hns as [|s n l k Hs _ IH]; simpl.
    - split; [lia|done].
    - rewrite orb_false_iff, IH.
      assert (spec_has_id i s = has_id (n :: k) i 0) as ->.
      { unfold spec_has_id, has_id. simpl.
        by destruct (build_node_fields _ _ Hs) as (-> & _). }
      split.
      + intros [H0 Hr] [|r] Hlt; [done|]. apply (Hr r). lia.
      + intros H. split; [apply H; lia|]. intros r Hr. apply (H (S r)). lia. }
  split.
  - intros H r Hr. apply H. apply elem_of_seq. lia.
  - intros H r Hr%elem_of_seq. apply H. lia.
Qed.

Lemma build_edge_present g edge s t :
  edge !! "source" = Some s →
  edge !! "target" = Some t →
  _build_edge g edge =
    match get_node g s, get_node g t with
    | None, _ => Raise (ValueError (source_not_found s))
    | Some _, None => Raise (ValueError (target_not_found t))
    | Some source, Some target => OK (Edge.mk source target)
    end.
Proof. intros Hs Ht. unfold _build_edge. by rewrite Hs, Ht. Qed.

Lemma build_edge_OK g edge e :
  _build_edge g edge = OK e →
  ∃ s t, edge !! "source" = Some s ∧ edge !! "target" = Some t
         ∧ get_node g s = Some (Edge.source e)
         ∧ get_node g t = Some (Edge.target e).
Proof.
  unfold _build_edge.
  destruct (edge !! "source") as [s|]; [|done].
  destruct (edge !! "target") as [t|]; [|done].
  destruct (get_node g s) as [a|] eqn:Ha; [|done].
  destruct (get_node g t) as [b|] eqn:Hb; [|done].
  intros [= <-]. by exists s, t.
Qed.

(** The two messages differ in their first letter, whatever the ids. *)
Lemma not_found_messages_differ i j : source_not_found i ≠ target_not_found j.
Proof.
  unfold source_not_found, target_not_found. intros H.
  cbv beta iota delta [String.append] in H. discriminate H.
Qed.

(** When the nodes are built and every EdgeSpec carries a source and a
    target, the error of an input with a dangling EdgeSpec comes from the first
    such EdgeSpec: it names the source id if the source is undeclared, and
    otherwise the target id. *)
Lemma dangling_edge_first_error
    (_nodes : list (gmap string pyval)) (_edges : list (gmap string string))
    (ns : list Node.t) :
  _build_nodes _nodes = OK ns →
  Forall (λ edge, is_Some (edge !! "source") ∧ is_Some (edge !! "target")) _edges →
  Exists (dangling _nodes) _edges →
  (∃ pre edge post s t,
      _edges = pre ++ edge :: post
      ∧ Forall (λ edge', ¬ dangling _nodes edge') pre
      ∧ edge !! "source" = Some s ∧ edge !! "target" = Some t
      ∧ ((declares_id _nodes s = false
          ∧ _build_graph _nodes _edges = Raise (ValueError (source_not_found s)))
         ∨ (declares_id _nodes s = true ∧ declares_id _nodes t = false
            ∧ _build_graph _nodes _edges = Raise (ValueError (target_not_found t)))))
  ∧ ∀ i j, source_not_found i ≠ target_not_found j.
Proof.
  intros Hns Hkeys Hdangling. split; [|apply not_found_messages_differ].
  set (g := mkGraph ns (seq 0 (length ns)) []).
  assert (∀ i, get_node g i = None ↔ declares_id _nodes i = false) as Hget.
  { intros i. by apply get_node_built. }
  assert (∃ e, _build_edges g _edges = Raise e) as [e He].
  { apply Exists_exists in Hdangling as (edge & Hin & i & Hi & Hno).
    rewrite Forall_forall in Hkeys.
    destruct (Hkeys edge Hin) as [[s Hs] [t Ht]].
    apply Hget in Hno.
    apply (mapM_Raise_exists _ _ edge
      (match get_node g s with
       | None => ValueError (source_not_found s)
       | Some _ => ValueError (target_not_found t)
       end)); [done|].
    rewrite (build_edge_present g edge s t) by done.
    destruct Hi as [Hi|Hi]; rewrite Hi in *; simplify_eq.
    - by rewrite Hno.
    - rewrite Hno. by destruct (get_node g s). }
  assert (_build_graph _nodes _edges = Raise e) as Hgraph.
  { unfold _build_graph. rewrite Hns, bind_OK. fold g. by rewrite He, bind_Raise. }
  apply mapM_Raise_split in He as (pre & edge & post & k & -> & Hpre & Hedge).
  apply Forall_app in Hkeys as [_ Hkeys]. apply Forall_cons in Hkeys as [[[s Hs] [t Ht]] _].
  exists pre, edge, post, s, t. split; [done|]. split.
  { apply Forall_forall. intros edge' Hin (i & Hi & Hno%Hget).
    apply list_elem_of_lookup_1 in Hin as [n Hn].
    destruct (Forall2_lookup_l _ _ _ _ _ Hpre Hn) as (e' & _ & He').
    apply build_edge_OK in He' as (s' & t' & Hs' & Ht' & Hgs & Hgt).
    destruct Hi as [Hi|Hi]; congruence. }
  split; [done|]. split; [done|].
  rewrite (build_edge_present g edge s t) in Hedge by done.
  destruct (get_node g s) as [a|] eqn:Ha.
  - right. destruct (get_node g t) as [b|] eqn:Hb; [done|].
    injection Hedge as <-. split.
    + apply not_false_iff_true. intros Hf%Hget. congruence.
    + split; [by apply Hget|done].
  - left. injection Hedge as <-. split; [by apply Hget|done].
Qed.

(** What [_build_edge] can raise: the [KeyError] of a key the EdgeSpec lacks,
    or one of the two [ValueError]s, for an id that [get_node] does not find. *)
Lemma build_edge_Raise g edge e :
  _build_edge g edge = Raise e →
  is_lookup_error e
  ∨ ∃ i, get_node g i = None
         ∧ (e = ValueError (source_not_found i) ∨ e = ValueError (target_not_found i)).
Proof.
  unfold _build_edge.
  destruct (edge !! "source") as [s|]; [|intros [= <-]; by left].
  destruct (edge !! "target") as [t|]; [|intros [= <-]; by left].
  destruct (get_node g s) as [a|] eqn:Hs.
  - destruct (get_node g t) as [b|] eqn:Ht; [done|].
    intros [= <-]. right. exists t. auto.
  - intros [= <-]. right. exists s. auto.
Qed.

(** A dangling EdgeSpec never yields an edge. *)
Lemma build_edge_dangling _nodes ns es edge :
  _build_nodes _nodes = OK ns →
  dangling _nodes edge →
  ∃ e, _build_edge (mkGraph ns (seq 0 (length ns)) es) edge = Raise e.
Proof.
  intros Hns (i & Hi & Hno%(get_node_built _nodes ns es)); [|done].
  unfold _build_edge.
  destruct (edge !! "source") as [s|]; [|by eexists].
  destruct (edge !! "target") as [t|]; [|by eexists].
  destruct Hi as [[= ->]|[= ->]].
  - rewrite Hno. by eexists.
  - destruct (get_node _ s); [|by eexists]. rewrite Hno. by eexists.
Qed.

(** C4 (as amended): an input with an EdgeSpec whose source or target no
    NodeSpec declares never yields a graph: construction raises. The error
    is the lookup error of a malformed NodeSpec or of an EdgeSpec that lacks a
    key, or a [ValueError] that names an undeclared id. When the nodes are
    built and every EdgeSpec carries a source and a target it is the
    [ValueError] of the first dangling EdgeSpec: with the message of
    [source_not_found] and the source id if the source is undeclared, and
    otherwise with the message of [target_not_found] and the target id. The
    two messages are never equal. *)
Theorem build_graph_dangling_edge_raises
    (_nodes : list (gmap string pyval)) (_edges : list (gmap string string)) :
  Exists (dangling _nodes) _edges →
  (∃ e, _build_graph _nodes _edges = Raise e
        ∧ (is_lookup_error e
           ∨ ∃ i, declares_id _nodes i = false
                  ∧ (e = ValueError (source_not_found i)
                     ∨ e = ValueError (target_not_found i))))
  ∧ (∀ ns,
       _build_nodes _nodes = OK ns →
       Forall (λ edge, is_Some (edge !! "source") ∧ is_Some (edge !! "target"))
         _edges →
       ∃ pre edge post s t,
         _edges = pre ++ edge :: post
         ∧ Forall (λ edge', ¬ dangling _nodes edge') pre
         ∧ edge !! "source" = Some s ∧ edge !! "target" = Some t
         ∧ ((declares_id _nodes s = false
             ∧ _build_graph _nodes _edges = Raise (ValueError (source_not_found s)))
            ∨ (declares_id _nodes s = true ∧ declares_id _nodes t = false
               ∧ _build_graph _nodes _edges
                 = Raise (ValueError (target_not_found t)))))
  ∧ ∀ i j, source_not_found i ≠ target_not_found j.
Proof.
  intros Hdangling. split; [|split; [|apply not_found_messages_differ]].
  - unfold _build_graph.
    destruct (_build_nodes _nodes) as [ns|e] eqn:Hns.
    + rewrite bind_OK.
      apply Exists_exists in Hdangling as (edge & Hin & Hd).
      destruct (build_edge_dangling _nodes ns [] edge Hns Hd) as [e0 He0].
      destruct (mapM_Raise_exists _ _ edge e0 Hin He0) as [e He].
      unfold _build_edges. rewrite He, bind_Raise. exists e. split; [done|].
      apply mapM_Raise_elem in He as (edge' & _ & He').
      apply build_edge_Raise in He' as [?|(i & Hi & He')]; [by left|right].
      exists i. split; [|done]. by apply (get_node_built _nodes ns []).
    + rewrite bind_Raise. exists e. split; [done|]. left.
      apply mapM_Raise_elem in Hns as (s & _ & Hs).
      by eapply build_node_Raise.
  - intros ns Hns Hkeys.
    by destruct (dangling_edge_first_error _nodes _edges ns Hns Hkeys Hdangling).
Qed.

(** ** Neighbors *)

Lemma tally_lookup (k m : ref) (nb : gmap ref nat) :
  tally k nb !! m =
    if decide (m = k) then Some (default 0 (nb !! k) + 1) else nb !! m.
Proof.
  unfold tally. destruct (nb !! k) as [c|] eqn:Hk.
  - rewrite Hk. case_decide as Hm.
    + subst. by rewrite lookup_insert_eq.
    + by rewrite lookup_insert_ne.
  - rewrite lookup_insert_eq. case_decide as Hm.
    + subst. by rewrite lookup_insert_eq.
    + by rewrite !lookup_insert_ne.
Qed.

Lemma neighbors_step_lookup (n m : ref) (nb : gmap ref nat) (edge : Edge.t) :
  neighbors_step n nb edge !! m =
    if decide (connects n m edge) then Some (default 0 (nb !! m) + 1)
    else nb !! m.
Proof.
  unfold neighbors_step, connects.
  repeat case_bool_decide; rewrite ?tally_lookup;
    repeat case_decide; subst; try done; intuition congruence.
Qed.

Lemma neighbors_fold_lookup (n m : ref) (es : list Edge.t) (nb : gmap ref nat) :
  foldl (neighbors_step n) nb es !! m =
    match count_connecting n m es with
    | 0 => nb !! m
    | S c => Some (default 0 (nb !! m) + S c)
    end.
Proof.
  unfold count_connecting. revert nb.
  induction es as [|edge es IH]; intros nb; [done|].
  simpl foldl. rewrite IH, neighbors_step_lookup, filter_cons.
  destruct (decide (connects n m edge)); [|done].
  simpl. destruct (length _); f_equal; lia.
Qed.

Lemma neighbors_lookup_count (g : Graph) (n m : ref) :
  get_node_neighbors g n !! m =
    match count_connecting n m (edges g) with
    | 0 => None
    | S c => Some (S c)
    end.
Proof.
  unfold get_node_neighbors. rewrite neighbors_fold_lookup, lookup_empty.
  by destruct (count_connecting _ _ _).
Qed.

(** C6: [get_node_neighbors(n)] maps a node [m] to the number of edges of the
    graph that join [n] and [m], parallel edges counted each: the entry of [m]
    is [c] exactly when [c] edges join them and [c] is not zero, and [m] has
    no entry exactly when no edge joins them. So two edges between [n] and [m]
    give [m] the count 2. *)
Theorem get_node_neighbors_counts (g : Graph) (n m : ref) :
  (∀ c, get_node_neighbors g n !! m = Some c
        ↔ count_connecting n m (edges g) = c ∧ 0 < c)
  ∧ (get_node_neighbors g n !! m = None ↔ count_connecting n m (edges g) = 0).
Proof.
  rewrite neighbors_lookup_count.
  destruct (count_connecting n m (edges g)) as [|k]; split.
  - intros c. split; [done|]. intros [<- ?]. lia.
  - done.
  - intros c. split; [intros [= <-]; split; [done|lia]|]. by intros [<- _].
  - done.
Qed.

Lemma count_connecting_app n m es1 es2 :
  count_connecting n m (es1 ++ es2)
  = count_connecting n m es1 + count_connecting n m es2.
Proof. unfold count_connecting. by rewrite filter_app, length_app. Qed.

Lemma count_connecting_cons n m edge es :
  count_connecting n m (edge :: es)
  = (if decide (connects n m edge) then 1 else 0) + count_connecting n m es.
Proof.
  unfold count_connecting. rewrite filter_cons. by case_decide.
Qed.

(** C10: a self-loop on [n] adds exactly 1 to the count of [n] among its own
    neighbors: with the loop anywhere in the edge list, the count of [n] is one
    more than without it, and the count of every other node is unchanged. *)
Theorem get_node_neighbors_self_loop
    (h : list Node.t) (ns : list ref) (es1 es2 : list Edge.t) (n m : ref) :
  get_node_neighbors (mkGraph h ns (es1 ++ Edge.mk n n :: es2)) n !! m
  = if decide (m = n)
    then Some (S (default 0 (get_node_neighbors (mkGraph h ns (es1 ++ es2)) n !! n)))
    else get_node_neighbors (mkGraph h ns (es1 ++ es2)) n !! m.
Proof.
  rewrite !neighbors_lookup_count. simpl.
  rewrite !count_connecting_app, count_connecting_cons.
  destruct (decide (m = n)) as [->|Hm].
  - rewrite decide_True by (left; done).
    replace (count_connecting n n es1 + (1 + count_connecting n n es2))
      with (S (count_connecting n n es1 + count_connecting n n es2)) by lia.
    by destruct (_ + _).
  - rewrite decide_False; [done|]. unfold connects. simpl. intuition congruence.
Qed.

(** ** Children by type *)

Lemma eq_str_true v s : eq_str v s = true ↔ v = PStr s.
Proof.
  destruct v as [s'| |]; simpl; [|done..].
  rewrite bool_decide_eq_true. split; congruence.
Qed.

Lemma in_list_true node_type node_types :
  in_list node_type node_types = true ↔ PStr node_type ∈ node_types.
Proof.
  unfold in_list. rewrite existsb_exists. split.
  - intros (v & Hin%list_elem_of_In & ->%eq_str_true). done.
  - intros Hin. exists (PStr node_type).
    split; [by apply list_elem_of_In|by apply eq_str_true].
Qed.

(** On a node whose [data] declares [type] and either has no [node] entry or
    has the list [base_classes] under it, the result is decided by membership of
    the type string among the declared type and the base classes. *)
Lemma children_by_type_membership
    (g : Graph) (node : ref) (n : Node.t) (node_type : string)
    (d : gmap string pyval) (ty : pyval) (bases : list pyval) :
  heap g !! node = Some n →
  Node.data n = PDict d →
  d !! "type" = Some ty →
  (d !! "node" = None ∧ bases = []
   ∨ ∃ nd, d !! "node" = Some (PDict nd) ∧ nd !! "base_classes" = Some (PList bases)) →
  (ty = PStr node_type ∨ PStr node_type ∈ bases →
     get_children_by_node_type g node node_type = OK [node])
  ∧ (¬ (ty = PStr node_type ∨ PStr node_type ∈ bases) →
     get_children_by_node_type g node node_type = OK [])
  ∧ ∀ g', heap g' !! node = Some n →
      get_children_by_node_type g' node node_type
      = get_children_by_node_type g node node_type.
Proof.
  intros Hn Hd Hty Hbases.
  assert (node_types_of n = OK (ty :: bases)) as Htypes.
  { unfold node_types_of. rewrite Hd. cbn [getitem].
    rewrite (dict_getitem_Some _ _ _ Hty), bind_OK.
    destruct Hbases as [[Hnone ->]|(nd & Hnd & Hb)].
    - rewrite Hnone. rewrite bool_decide_eq_false_2; [done|].
      by intros [? ?].
    - rewrite Hnd. rewrite bool_decide_eq_true_2 by eauto.
      rewrite (dict_getitem_Some _ _ _ Hnd), bind_OK. cbn [getitem].
      by rewrite (dict_getitem_Some _ _ _ Hb), bind_OK. }
  assert (∀ g', heap g' !! node = Some n →
    get_children_by_node_type g' node node_type
    = OK (if in_list node_type (ty :: bases) then [node] else [])) as Hres.
  { intros g' Hg'. unfold get_children_by_node_type.
    by rewrite Hg', Htypes, bind_OK. }
  assert (in_list node_type (ty :: bases) = true
          ↔ ty = PStr node_type ∨ PStr node_type ∈ bases) as Hin.
  { rewrite in_list_true, elem_of_cons. split; intros [?|?]; auto. }
  split; [|split].
  - intros Hmatch%Hin. by rewrite Hres, Hmatch.
  - intros Hno. rewrite Hres by done.
    destruct (in_list _ _); [|done]. destruct Hno. by apply Hin.
  - intros g' Hg'. by rewrite !Hres.
Qed.

(** C8 (as amended): on a node [n] whose [data] declares [type],
    [get_children_by_node_type(n, t)] returns the list with [n] alone when [t]
    is the declared type or one of the declared base classes and the empty
    list otherwise, provided [data] has no [node] entry or has the list
    [base_classes] under it; with a [node] entry that has no [base_classes] it
    raises [KeyError] on that key for every [t], the declared type included.
    In every case the result is the same in every graph: only the argument
    node is read. *)
Theorem get_children_by_node_type_self
    (g : Graph) (node : ref) (n : Node.t) (node_type : string)
    (d : gmap string pyval) (ty : pyval) :
  heap g !! node = Some n →
  Node.data n = PDict d →
  d !! "type" = Some ty →
  (∀ bases,
     d !! "node" = None ∧ bases = []
     ∨ (∃ nd, d !! "node" = Some (PDict nd)
              ∧ nd !! "base_classes" = Some (PList bases)) →
     (ty = PStr node_type ∨ PStr node_type ∈ bases →
        get_children_by_node_type g node node_type = OK [node])
     ∧ (¬ (ty = PStr node_type ∨ PStr node_type ∈ bases) →
        get_children_by_node_type g node node_type = OK []))
  ∧ (∀ nd, d !! "node" = Some (PDict nd) → nd !! "base_classes" = None →
       get_children_by_node_type g node node_type
       = Raise (KeyError "base_classes"))
  ∧ ∀ g', heap g' !! node = Some n →
      get_children_by_node_type g' node node_type
      = get_children_by_node_type g node node_type.
Proof.
  intros Hn Hd Hty. split; [|split].
  - intros bases Hbases.
    destruct (children_by_type_membership g node n node_type d ty bases)
      as (Hyes & Hno & _); done.
  - intros nd Hnd Hb.
    unfold get_children_by_node_type, node_types_of. rewrite Hn, Hd.
    cbn [getitem]. rewrite (dict_getitem_Some _ _ _ Hty), bind_OK, Hnd.
    rewrite bool_decide_eq_true_2 by eauto.
    rewrite (dict_getitem_Some _ _ _ Hnd), bind_OK. cbn [getitem].
    by rewrite (dict_getitem_None _ _ Hb), !bind_Raise.
  - intros g' Hg'. unfold get_children_by_node_type. by rewrite Hn, Hg'.
Qed.

(** ** Linking the edges *)

Lemma add_edges_nil n : add_edges [] n = n.
Proof. destruct n. unfold add_edges. simpl. by rewrite app_nil_r. Qed.

Lemma add_edges_app es1 es2 n :
  add_edges es2 (add_edges es1 n) = add_edges (es1 ++ es2) n.
Proof. unfold add_edges. simpl. by rewrite app_assoc. Qed.

Lemma link_edge_lookup h edge r :
  link_edge h edge !! r = add_edges (linked_to r [edge]) <$> h !! r.
Proof.
  unfold link_edge, linked_to. simpl. rewrite app_nil_r.
  destruct (decide (Edge.source edge = r)) as [Hs|Hs];
    destruct (decide (Edge.target edge = r)) as [Ht|Ht].
  - rewrite Hs, Ht, !list_lookup_alter_eq.
    destruct (h !! r) as [n|]; [|done]. simpl. f_equal.
    change (Node.add_edge edge (Node.add_edge edge n))
      with (add_edges [edge] (add_edges [edge] n)).
    by rewrite add_edges_app.
  - rewrite list_lookup_alter_ne, Hs, list_lookup_alter_eq by done.
    by destruct (h !! r).
  - rewrite Ht, list_lookup_alter_eq, list_lookup_alter_ne by done.
    by destruct (h !! r).
  - rewrite !list_lookup_alter_ne by done.
    destruct (h !! r) as [n|]; [|done]. simpl. by rewrite add_edges_nil.
Qed.

Lemma linked_to_snoc r es edge :
  linked_to r (es ++ [edge]) = linked_to r es ++ linked_to r [edge].
Proof. unfold linked_to. by rewrite bind_app. Qed.

Lemma link_edges_lookup h es r :
  foldl link_edge h es !! r = add_edges (linked_to r es) <$> h !! r.
Proof.
  induction es as [|edge es IH] using rev_ind.
  - simpl. destruct (h !! r) as [n|]; [|done]. simpl. by rewrite add_edges_nil.
  - rewrite foldl_snoc, link_edge_lookup, IH, linked_to_snoc.
    destruct (h !! r) as [n|]; [|done]. simpl. by rewrite add_edges_app.
Qed.

Lemma linked_to_nonempty r es :
  linked_to r es ≠ [] ↔ ∃ edge, edge ∈ es ∧ incident r edge.
Proof.
  unfold linked_to, incident. split.
  - intros H. destruct (es ≫= _) as [|e l] eqn:Heq; [done|].
    assert (e ∈ es ≫= λ edge,
      (if decide (Edge.source edge = r) then [edge] else [])
      ++ (if decide (Edge.target edge = r) then [edge] else [])) as Hin.
    { rewrite Heq. constructor. }
    apply list_elem_of_bind in Hin as (edge & Hin & Hedge).
    exists edge. split; [done|].
    repeat case_decide; auto. by inversion Hin.
  - intros (edge & Hin & Hinc) Hnil.
    assert (edge ∈ es ≫= λ edge,
      (if decide (Edge.source edge = r) then [edge] else [])
      ++ (if decide (Edge.target edge = r) then [edge] else [])) as Hin'.
    { apply list_elem_of_bind. exists edge. split; [|done].
      destruct Hinc; repeat case_decide; try done;
        repeat constructor. }
    rewrite Hnil in Hin'. by inversion Hin'.
Qed.

(** ** The parameter phase leaves classes, ids, data and edges alone *)

Lemma same_but_params_refl n : same_but_params n n.
Proof. by unfold same_but_params. Qed.

Lemma same_but_params_set n n' p :
  same_but_params n n' → same_but_params n (Node.set_params p n').
Proof. unfold same_but_params. simpl. tauto. Qed.

Lemma build_params_step_frame h0 st node :
  Forall2 same_but_params h0 st.1 →
  Forall2 same_but_params h0 (build_params_step st node).1.
Proof.
  intros H. unfold build_params_step.
  assert (Forall2 same_but_params h0
    (alter (Node.set_params (Node_build_params st.1 node)) node st.1)) as H'.
  { apply Forall2_alter_r; [done|]. intros ? ? _ _. apply same_but_params_set. }
  destruct (_ !! node) as [n|]; [|done]. by destruct (Node.isinstance n LLMNode).
Qed.

Lemma build_params_loop_frame h0 st ns :
  Forall2 same_but_params h0 st.1 →
  Forall2 same_but_params h0 (foldl build_params_step st ns).1.
Proof.
  revert st. induction ns as [|node ns IH]; intros st H; [done|].
  simpl. by apply IH, build_params_step_frame.
Qed.

Lemma inject_llm_frame h0 llm h node :
  Forall2 same_but_params h0 h →
  Forall2 same_but_params h0 (inject_llm llm h node).
Proof.
  intros H. unfold inject_llm.
  destruct (h !! node) as [n|]; [|done].
  destruct (Node.isinstance n ToolkitNode); [|done].
  apply Forall2_alter_r; [done|]. intros ? ? _ _. apply same_but_params_set.
Qed.

Lemma inject_llm_loop_frame h0 llm h ns :
  Forall2 same_but_params h0 h →
  Forall2 same_but_params h0 (foldl (inject_llm llm) h ns).
Proof.
  revert h. induction ns as [|node ns IH]; intros h H; [done|].
  simpl. by apply IH, inject_llm_frame.
Qed.

Lemma build_node_params_frame g :
  Forall2 same_but_params (heap g) (heap (_build_node_params g))
  ∧ nodes (_build_node_params g) = nodes g
  ∧ edges (_build_node_params g) = edges g.
Proof.
  unfold _build_node_params.
  pose proof (build_params_loop_frame (heap g) (heap g, None) (nodes g)) as H.
  destruct (foldl build_params_step _ _).2 as [llm|]; simpl.
  - split; [|done]. apply inject_llm_loop_frame, H.
    apply Forall_Forall2_diag, Forall_forall. intros n _. apply same_but_params_refl.
  - split; [|done]. apply H.
    apply Forall_Forall2_diag, Forall_forall. intros n _. apply same_but_params_refl.
Qed.

(** ** Pruning *)

(** C7: pruning writes the node list and nothing else. The edge list and the
    node objects are the same before and after, so every edge is still in the
    edge list and its endpoints still name the same node objects, whether
    those were kept in the node list or not. *)
Theorem remove_invalid_nodes_frame (g : Graph) :
  edges (_remove_invalid_nodes g) = edges g
  ∧ heap (_remove_invalid_nodes g) = heap g
  ∧ Forall (λ e, e ∈ edges (_remove_invalid_nodes g)
                 ∧ heap (_remove_invalid_nodes g) !! Edge.source e
                   = heap g !! Edge.source e
                 ∧ heap (_remove_invalid_nodes g) !! Edge.target e
                   = heap g !! Edge.target e) (edges g).
Proof.
  split; [done|]. split; [done|]. apply Forall_forall. by intros e He.
Qed.

Lemma validate_node_true g r :
  _validate_node g r = true ↔ ∃ n, heap g !! r = Some n ∧ Node.edges n ≠ [].
Proof.
  unfold _validate_node. split.
  - destruct (heap g !! r) as [n|]; [|done].
    intros H%bool_decide_eq_true. exists n. split; [done|].
    destruct (Node.edges n); simpl in *; [lia|done].
  - intros (n & -> & Hne). apply bool_decide_eq_true.
    destruct (Node.edges n); simpl; [done|lia].
Qed.

(** The pruning pass on any graph: a node of the list is kept iff its own
    edge collection is not empty or the graph has one node and no edge. *)
Lemma remove_invalid_nodes_keeps g r :
  r ∈ nodes (_remove_invalid_nodes g)
  ↔ r ∈ nodes g
    ∧ ((∃ n, heap g !! r = Some n ∧ Node.edges n ≠ [])
       ∨ singleton_case (length (nodes g)) (length (edges g))).
Proof.
  unfold _remove_invalid_nodes, singleton_case. simpl.
  rewrite list_elem_of_filter, <- validate_node_true.
  rewrite orb_True, andb_True, !bool_decide_spec, Is_true_true. tauto.
Qed.

(** The stages of a successful construction. *)
Lemma build_graph_stages _nodes _edges g :
  _build_graph _nodes _edges = OK g →
  ∃ ns es,
    _build_nodes _nodes = OK ns
    ∧ _build_edges (mkGraph ns (seq 0 (length ns)) []) _edges = OK es
    ∧ g = _remove_invalid_nodes
            (_build_node_params (link_edges (mkGraph ns (seq 0 (length ns)) es))).
Proof.
  unfold _build_graph.
  intros (ns & Hns & (es & Hes & [= <-])%bind_OK_inv)%bind_OK_inv.
  by exists ns, es.
Qed.

(** Construction succeeds as soon as the nodes and the edges are built. *)
Lemma build_graph_OK _nodes _edges ns es :
  _build_nodes _nodes = OK ns →
  _build_edges (mkGraph ns (seq 0 (length ns)) []) _edges = OK es →
  _build_graph _nodes _edges
  = OK (_remove_invalid_nodes
          (_build_node_params (link_edges (mkGraph ns (seq 0 (length ns)) es)))).
Proof. intros Hns Hes. unfold _build_graph. by rewrite Hns, bind_OK, Hes, bind_OK. Qed.

(** After linking and the parameter phase, the edge collection of the node at
    [r] is what linking put there. *)
Lemma built_node_edges _nodes ns es r n :
  _build_nodes _nodes = OK ns →
  heap (_build_node_params (link_edges (mkGraph ns (seq 0 (length ns)) es))) !! r
    = Some n →
  Node.edges n = linked_to r es.
Proof.
  intros Hns%mapM_OK_Forall2 Hn.
  destruct (build_node_params_frame
    (link_edges (mkGraph ns (seq 0 (length ns)) es))) as (Hframe & _).
  destruct (Forall2_lookup_r _ _ _ _ _ Hframe Hn) as (n1 & Hn1 & (_ & _ & _ & ->)).
  unfold link_edges in Hn1. simpl in Hn1. rewrite link_edges_lookup in Hn1.
  destruct (ns !! r) as [n0|] eqn:Hn0; [|done]. injection Hn1 as <-.
  destruct (Forall2_lookup_r _ _ _ _ _ Hns Hn0) as (s & _ & Hs).
  apply build_node_fields in Hs as (_ & _ & _ & Hedges).
  simpl. by rewrite Hedges.
Qed.

Lemma built_heap_length ns es :
  length (heap (_build_node_params (link_edges (mkGraph ns (seq 0 (length ns)) es))))
  = length ns.
Proof.
  destruct (build_node_params_frame
    (link_edges (mkGraph ns (seq 0 (length ns)) es))) as (Hframe%Forall2_length & _).
  rewrite <- Hframe. unfold link_edges. simpl.
  clear Hframe. revert ns. induction es as [|e es IH]; intros ns; [done|].
  simpl. rewrite IH. unfold link_edge. by rewrite !length_alter.
Qed.

(** Which built nodes the constructor keeps. *)
Lemma built_graph_keeps _nodes _edges ns es r :
  _build_nodes _nodes = OK ns →
  _build_edges (mkGraph ns (seq 0 (length ns)) []) _edges = OK es →
  r ∈ nodes (_remove_invalid_nodes
               (_build_node_params (link_edges (mkGraph ns (seq 0 (length ns)) es))))
  ↔ r < length _nodes
    ∧ ((∃ edge, edge ∈ es ∧ incident r edge)
       ∨ singleton_case (length _nodes) (length _edges)).
Proof.
  intros Hns Hes.
  pose proof (mapM_OK_length _ _ _ Hns) as Hlen.
  pose proof (mapM_OK_length _ _ _ Hes) as Hlen_es.
  set (g2 := _build_node_params (link_edges (mkGraph ns (seq 0 (length ns)) es))).
  destruct (build_node_params_frame
    (link_edges (mkGraph ns (seq 0 (length ns)) es))) as (_ & Hnodes & Hedges).
  fold g2 in Hnodes, Hedges. simpl in Hnodes, Hedges.
  rewrite remove_invalid_nodes_keeps, Hnodes, Hedges.
  rewrite elem_of_seq, length_seq, Hlen, Hlen_es.
  assert ((∃ n, heap g2 !! r = Some n ∧ Node.edges n ≠ [])
          ↔ r < length _nodes ∧ ∃ edge, edge ∈ es ∧ incident r edge) as ->.
  { rewrite <- linked_to_nonempty. split.
    - intros (n & Hn & Hne). split.
      + apply lookup_lt_Some in Hn. unfold g2 in Hn.
        rewrite built_heap_length in Hn. lia.
      + by rewrite <- (built_node_edges _nodes ns es r n).
    - intros [Hr Hne].
      destruct (lookup_lt_is_Some_2 (heap g2) r) as [n Hn].
      { unfold g2. rewrite built_heap_length. lia. }
      exists n. split; [done|].
      by rewrite (built_node_edges _nodes ns es r n). }
  split.
  - intros [[_ Hr] [[_ ?]|?]]; (split; [lia|tauto]).
  - intros [Hr [?|?]]; (split; [lia|tauto]).
Qed.

(** The ends of a built edge are built nodes. *)
Lemma built_edge_ends _nodes _edges ns es edge :
  _build_nodes _nodes = OK ns →
  _build_edges (mkGraph ns (seq 0 (length ns)) []) _edges = OK es →
  edge ∈ es →
  Edge.source edge < length _nodes ∧ Edge.target edge < length _nodes.
Proof.
  intros Hns Hes%mapM_OK_Forall2 [i Hi]%list_elem_of_lookup_1.
  rewrite <- (mapM_OK_length _ _ _ Hns).
  destruct (Forall2_lookup_r _ _ _ _ _ Hes Hi) as (spec & _ & Hspec).
  apply build_edge_OK in Hspec as (s & t & _ & _ & Hs & Ht).
  unfold get_node in Hs, Ht. simpl in Hs, Ht.
  apply find_some in Hs as [Hs%list_elem_of_In%elem_of_seq _].
  apply find_some in Ht as [Ht%list_elem_of_In%elem_of_seq _].
  lia.
Qed.

(** X19: in a constructed graph every edge has both its ends in the node
    list: a node with an edge is never pruned, so the edge list holds no edge
    to a pruned node. *)
Lemma built_graph_edge_ends_kept _nodes _edges g edge :
  _build_graph _nodes _edges = OK g →
  edge ∈ edges g →
  Edge.source edge ∈ nodes g ∧ Edge.target edge ∈ nodes g.
Proof.
  intros (ns & es & Hns & Hes & ->)%build_graph_stages Hin.
  assert (edge ∈ es) as Hin'.
  { destruct (build_node_params_frame
      (link_edges (mkGraph ns (seq 0 (length ns)) es))) as (_ & _ & Hedges).
    simpl in Hin, Hedges. by rewrite Hedges in Hin. }
  destruct (built_edge_ends _ _ _ _ _ Hns Hes Hin') as [Hs Ht].
  split; apply (built_graph_keeps _nodes _edges ns es); try done.
  - split; [done|]. left. exists edge. split; [done|]. by left.
  - split; [done|]. left. exists edge. split; [done|]. by right.
Qed.

(** C3: in a constructed graph, the node built from the [r]-th NodeSpec is in
    the node list iff some edge of the graph has it as source or target, or
    the input is the singleton case, one NodeSpec and no EdgeSpec. So the
    graph of one NodeSpec and no EdgeSpec keeps its node, and the graph of two
    NodeSpecs and no EdgeSpec has an empty node list. *)
Theorem build_graph_prunes_unconnected
    (_nodes : list (gmap string pyval)) (_edges : list (gmap string string))
    (g : Graph) :
  _build_graph _nodes _edges = OK g →
  (∀ r, r ∈ nodes g
        ↔ r < length _nodes
          ∧ ((∃ edge, edge ∈ edges g ∧ incident r edge)
             ∨ singleton_case (length _nodes) (length _edges)))
  ∧ (length _nodes = 1 → _edges = [] → nodes g = [0])
  ∧ (length _nodes = 2 → _edges = [] → nodes g = []).
Proof.
  intros (ns & es & Hns & Hes & ->)%build_graph_stages.
  pose proof (built_graph_keeps _nodes _edges ns es) as Hkeep.
  pose proof (mapM_OK_length _ _ _ Hns) as Hlen.
  pose proof (mapM_OK_length _ _ _ Hes) as Hlen_es.
  destruct (build_node_params_frame
    (link_edges (mkGraph ns (seq 0 (length ns)) es))) as (_ & Hnodes & Hedges).
  simpl in Hnodes, Hedges.
  split; [|split].
  - intros r. change (edges (_remove_invalid_nodes ?g)) with (edges g).
    rewrite Hedges. by apply Hkeep.
  - intros H1 ->. simpl in Hlen_es. apply nil_length_inv in Hlen_es as ->.
    unfold _remove_invalid_nodes. simpl. rewrite Hnodes, Hedges, Hlen, H1. simpl.
    rewrite filter_cons_True; [done|]. rewrite orb_True. by right.
  - intros H2 ->. simpl in Hlen_es. apply nil_length_inv in Hlen_es as ->.
    apply elem_of_nil_inv.
    intros r [_ [(edge & Hedge & _)|[? _]]]%Hkeep; [..|done|done].
    + by inversion Hedge.
    + lia.
Qed.

(** ** The LLM node and the toolkits *)

Lemma is_llm_frame h h' r :
  Forall2 same_but_params h h' → is_llm h' r = is_llm h r.
Proof.
  intros H. unfold is_llm, Node.isinstance.
  destruct (h' !! r) as [n'|] eqn:Hn'.
  - destruct (Forall2_lookup_r _ _ _ _ _ H Hn') as (n & -> & (-> & _)). done.
  - destruct (h !! r) as [n|] eqn:Hn; [|done].
    destruct (Forall2_lookup_l _ _ _ _ _ H Hn) as (n' & ? & _). congruence.
Qed.

Lemma build_params_step_heap st node :
  (build_params_step st node).1
  = alter (Node.set_params (Node_build_params st.1 node)) node st.1.
Proof.
  unfold build_params_step. destruct (_ !! node) as [n|]; [|done].
  by destruct (Node.isinstance n LLMNode).
Qed.

Lemma build_params_step_llm st node :
  (build_params_step st node).2
  = if is_llm (build_params_step st node).1 node then Some node else st.2.
Proof.
  rewrite build_params_step_heap. unfold build_params_step, is_llm.
  destruct (_ !! node) as [n|]; [|done].
  by destruct (Node.isinstance n LLMNode).
Qed.

(** The first loop runs each node's own step and nothing else on the heap. *)
Lemma build_params_loop_heap st ns :
  (foldl build_params_step st ns).1 = run_build_params st.1 ns.
Proof.
  unfold run_build_params. revert st.
  induction ns as [|node ns IH]; intros st; [done|].
  simpl. by rewrite IH, build_params_step_heap.
Qed.

(** The first loop leaves in [llm_node] the last [LLMNode] of the list. *)
Lemma build_params_loop_llm h0 st ns :
  Forall2 same_but_params h0 st.1 →
  (foldl build_params_step st ns).2
  = match last (filter (λ r, is_llm h0 r) ns) with
    | Some llm => Some llm
    | None => st.2
    end.
Proof.
  revert st. induction ns as [|node ns IH]; intros st Hst; [done|].
  simpl foldl. rewrite IH by by apply build_params_step_frame.
  rewrite build_params_step_llm.
  rewrite (is_llm_frame h0) by by apply build_params_step_frame.
  rewrite filter_cons. destruct (is_llm h0 node) eqn:Hllm.
  - rewrite decide_True by done. rewrite last_cons.
    by destruct (last _).
  - rewrite decide_False; [done|]. by intros ?.
Qed.

(** After the second loop every [ToolkitNode] of the list has the LLM node
    under ["llm"]. *)
Lemma inject_llm_loop_toolkit llm h ns r n :
  r ∈ ns →
  foldl (inject_llm llm) h ns !! r = Some n →
  Node.class n = ToolkitNode →
  Node.params n !! "llm" = Some (ParamNode llm).
Proof.
  induction ns as [|node ns IH] using rev_ind; [by intros ?%elem_of_nil|].
  rewrite foldl_snoc. intros Hin Hn Hclass.
  set (h' := foldl (inject_llm llm) h ns) in *.
  unfold inject_llm in Hn.
  destruct (decide (r = node)) as [->|Hne].
  - destruct (h' !! node) as [n0|] eqn:Hn0; [|congruence].
    unfold Node.isinstance in Hn.
    case_bool_decide as Hc.
    + rewrite list_lookup_alter_eq, Hn0 in Hn. injection Hn as <-.
      simpl. by rewrite lookup_insert_eq.
    + congruence.
  - apply IH; [| |done].
    + apply elem_of_app in Hin as [?|?%list_elem_of_singleton]; done.
    + destruct (h' !! node) as [n0|]; [|done].
      destruct (Node.isinstance n0 ToolkitNode); [|done].
      by rewrite list_lookup_alter_ne in Hn.
Qed.

Lemma last_filter_seq (P : nat → Prop) `{!∀ x, Decision (P x)} (n : nat) :
  match last (filter P (seq 0 n)) with
  | Some l => l < n ∧ P l ∧ ∀ r, l < r → r < n → ¬ P r
  | None => ∀ r, r < n → ¬ P r
  end.
Proof.
  induction n as [|n IH]; [simpl; lia|].
  rewrite seq_S, filter_app. simpl. rewrite filter_cons, filter_nil.
  destruct (decide (P n)) as [Hn|Hn].
  - rewrite last_snoc. split; [lia|]. split; [done|]. lia.
  - rewrite app_nil_r. destruct (last _) as [l|].
    + destruct IH as (Hl & HP & Hafter). split; [lia|]. split; [done|].
      intros r Hr Hr'. destruct (decide (r = n)) as [->|]; [done|].
      apply Hafter; lia.
    + intros r Hr. destruct (decide (r = n)) as [->|]; [done|].
      apply IH. lia.
Qed.

(** Among finitely many nodes, if there is an [LLMNode] there is a last one. *)
Lemma last_llm_exists h :
  (∃ r, is_llm h r = true) → ∃ llm, is_last_llm h llm.
Proof.
  intros [r Hr].
  pose proof (last_filter_seq (λ r, is_llm h r) (length h)) as Hlast.
  destruct (last _) as [l|].
  - exists l. destruct Hlast as (Hl & HP & Hafter).
    split; [by apply Is_true_true|]. intros r' Hr'.
    destruct (decide (r' < length h)) as [Hlt|Hge].
    + apply not_true_is_false. intros Ht.
      apply (Hafter r'); [done..|]. by apply Is_true_true.
    + unfold is_llm. rewrite lookup_ge_None_2; [done|lia].
  - exfalso. assert (r < length h) as Hlt.
    { unfold is_llm in Hr. destruct (h !! r) eqn:E; [|done].
      by apply lookup_lt_Some in E. }
    apply (Hlast r); [done|]. by apply Is_true_true.
Qed.

Lemma link_edges_length h es : length (foldl link_edge h es) = length h.
Proof.
  revert h. induction es as [|e es IH]; intros h; [done|].
  simpl. rewrite IH. unfold link_edge. by rewrite !length_alter.
Qed.

(** The parameter phase on a graph whose node list is its whole heap. *)
Lemma build_node_params_llm g :
  nodes g = seq 0 (length (heap g)) →
  (∀ llm, is_last_llm (heap (_build_node_params g)) llm →
     ∀ r n, heap (_build_node_params g) !! r = Some n →
            Node.class n = ToolkitNode →
            Node.params n !! "llm" = Some (ParamNode llm))
  ∧ ((∀ r, is_llm (heap (_build_node_params g)) r = false) →
     heap (_build_node_params g) = run_build_params (heap g) (nodes g)).
Proof.
  intros Hnodes.
  destruct (build_node_params_frame g) as (Hframe & _ & _).
  pose proof (Forall2_length _ _ _ Hframe) as Hlen.
  assert (∀ r, is_llm (heap (_build_node_params g)) r = is_llm (heap g) r) as Hllm.
  { intros r. by apply is_llm_frame. }
  assert (∀ r, is_llm (heap g) r = true → r < length (heap g)) as Hlt.
  { intros r. unfold is_llm. destruct (heap g !! r) eqn:E; [|done].
    intros _. by apply lookup_lt_Some in E. }
  revert Hlen Hllm. clear Hframe. unfold _build_node_params.
  rewrite (build_params_loop_llm (heap g)) by
    (apply Forall_Forall2_diag, Forall_forall; intros n _;
     apply same_but_params_refl).
  rewrite Hnodes.
  pose proof (last_filter_seq (λ r, is_llm (heap g) r) (length (heap g))) as Hlast.
  destruct (last _) as [l|]; cbn [snd fst heap set_heap]; intros Hlen Hllm.
  - destruct Hlast as (Hl & Hl_llm%Is_true_true & Hafter). split.
    + intros llm [Hllm1 Hllm2] r n Hn Hclass.
      rewrite Hllm in Hllm1.
      assert (llm = l) as ->.
      { destruct (lt_eq_lt_dec llm l) as [[Hlt'|?]|Hgt]; [|done|].
        - specialize (Hllm2 l Hlt'). rewrite Hllm in Hllm2. congruence.
        - destruct (Hafter llm Hgt (Hlt _ Hllm1)). by apply Is_true_true. }
      eapply inject_llm_loop_toolkit; [|exact Hn|done].
      apply elem_of_seq. apply lookup_lt_Some in Hn. lia.
    + intros Hnone. specialize (Hnone l). rewrite Hllm in Hnone. congruence.
  - split.
    + intros llm [Hllm1 _]. rewrite Hllm in Hllm1.
      destruct (Hlast llm (Hlt _ Hllm1)). by apply Is_true_true.
    + intros _. by rewrite build_params_loop_heap.
Qed.

(** C2: in a constructed graph [heap g] holds the built nodes, in the order
    of the NodeSpecs. If one of them is an [LLMNode], there is a last one in
    that order, and every [ToolkitNode] has, under the key ["llm"] of its
    [params], a reference to it. If none is, the heap is what linking the
    edges and then each node's own parameter-build step made of it: the phase
    wrote no ["llm"] entry. *)
Theorem build_graph_injects_last_llm
    (_nodes : list (gmap string pyval)) (_edges : list (gmap string string))
    (g : Graph) :
  _build_graph _nodes _edges = OK g →
  ((∃ r, is_llm (heap g) r = true) →
     ∃ llm, is_last_llm (heap g) llm
            ∧ ∀ r n, heap g !! r = Some n → Node.class n = ToolkitNode →
                     Node.params n !! "llm" = Some (ParamNode llm))
  ∧ (∀ llm, is_last_llm (heap g) llm →
       ∀ r n, heap g !! r = Some n → Node.class n = ToolkitNode →
              Node.params n !! "llm" = Some (ParamNode llm))
  ∧ ((∀ r, is_llm (heap g) r = false) →
     ∃ ns es,
       _build_nodes _nodes = OK ns
       ∧ _build_edges (mkGraph ns (seq 0 (length ns)) []) _edges = OK es
       ∧ heap g = run_build_params (foldl link_edge ns es) (seq 0 (length ns))).
Proof.
  intros (ns & es & Hns & Hes & ->)%build_graph_stages.
  change (heap (_remove_invalid_nodes ?g)) with (heap g).
  destruct (build_node_params_llm
    (link_edges (mkGraph ns (seq 0 (length ns)) es))) as [Hsome Hnone].
  { unfold link_edges. simpl. by rewrite link_edges_length. }
  split; [|split; [done|]].
  - intros [llm Hllm]%last_llm_exists. exists llm. split; [done|]. by apply Hsome.
  - intros H. exists ns, es. split; [done|]. split; [done|]. by apply Hnone.
Qed.

(** ** When construction succeeds *)

Lemma dict_getitem_OK d k v : dict_getitem d k = OK v ↔ d !! k = Some v.
Proof.
  unfold dict_getitem. destruct (d !! k); split; intros H; by simplify_eq.
Qed.

Lemma getitem_OK v k x :
  getitem v k = OK x ↔ ∃ d, v = PDict d ∧ d !! k = Some x.
Proof.
  destruct v as [?|?|d]; simpl.
  - split; [done|]. by intros (? & ? & _).
  - split; [done|]. by intros (? & ? & _).
  - rewrite dict_getitem_OK. split; [by exists d|]. by intros (? & [= <-] & ?).
Qed.

(** When [_get_node_class] returns, on the values of [pyval]. *)
Lemma get_node_class_OK t l :
  (∃ c, _get_node_class t l = OK c)
  ↔ ∃ ty, t = PStr ty
          ∧ (ty ∈ FILE_TOOLS ∨ is_Some (NODE_TYPE_MAP !! ty) ∨ ∃ lc, l = PStr lc).
Proof.
  unfold _get_node_class. split.
  - intros [c Hc]. destruct t as [ty| |]; cbn [hashable] in Hc;
      rewrite ?bind_OK, ?bind_Raise in Hc; [|done..].
    exists ty. split; [done|].
    case_bool_decide; [by left|]. right.
    destruct (NODE_TYPE_MAP !! ty); [by left; eexists|]. right.
    destruct l as [lc| |]; cbn [hashable] in Hc;
      rewrite ?bind_OK, ?bind_Raise in Hc; [by eexists|done..].
  - intros (ty & -> & H). cbn [hashable]. rewrite bind_OK.
    case_bool_decide; [by eexists|].
    destruct (NODE_TYPE_MAP !! ty) as [c|] eqn:Hty; [by eexists|].
    destruct H as [?|[[? ?]|[lc ->]]]; [done..|].
    cbn [hashable]. rewrite bind_OK. by eexists.
Qed.

(** When [_build_node] returns, on the values of [pyval]. *)
Lemma build_node_OK node :
  (∃ n, _build_node node = OK n) ↔ well_formed_spec node.
Proof.
  unfold _build_node, well_formed_spec. split.
  - intros [n H].
    apply bind_OK_inv in H as (node_data & Hd%dict_getitem_OK & H).
    apply bind_OK_inv in H as (node_type & (d & -> & Hty)%getitem_OK & H).
    apply bind_OK_inv in H as (node_node & (d' & [= <-] & Hn)%getitem_OK & H).
    apply bind_OK_inv in H as (tpl & (nd & -> & Ht)%getitem_OK & H).
    apply bind_OK_inv in H as (lc & (td & -> & Hl)%getitem_OK & H).
    apply bind_OK_inv in H as (c & Hc & H).
    destruct (proj1 (get_node_class_OK node_type lc)) as (ty & -> & Hknown);
      [by eexists|].
    unfold Node.new in H.
    apply bind_OK_inv in H as (i & Hi%dict_getitem_OK & _).
    by exists i, d, ty, nd, td, lc.
  - intros (i & d & ty & nd & td & lc & Hi & Hd & Hty & Hn & Ht & Hl & Hknown).
    destruct (proj2 (get_node_class_OK (PStr ty) lc)) as [c Hc]; [by exists ty|].
    rewrite (dict_getitem_Some _ _ _ Hd), bind_OK. cbn [getitem].
    rewrite (dict_getitem_Some _ _ _ Hty), bind_OK.
    rewrite (dict_getitem_Some _ _ _ Hn), bind_OK. cbn [getitem].
    rewrite (dict_getitem_Some _ _ _ Ht), bind_OK. cbn [getitem].
    rewrite (dict_getitem_Some _ _ _ Hl), bind_OK, Hc, bind_OK.
    unfold Node.new.
    rewrite (dict_getitem_Some _ _ _ Hi), bind_OK.
    rewrite (dict_getitem_Some _ _ _ Hd), bind_OK. by eexists.
Qed.

Lemma mapM_OK_Forall {A B} (f : A → result B) (l : list A) :
  (∃ k, mapM f l = OK k) ↔ Forall (λ x, ∃ y, f x = OK y) l.
Proof.
  split.
  - intros [k Hk%mapM_OK_Forall2]. induction Hk; constructor; eauto.
  - intros H. induction H as [|x l [y Hy] _ [k Hk]]; [by exists []|].
    exists (y :: k). by rewrite mapM_cons, Hy, bind_OK, Hk, bind_OK.
Qed.

Lemma build_edge_resolvable _nodes ns es edge :
  _build_nodes _nodes = OK ns →
  (∃ e, _build_edge (mkGraph ns (seq 0 (length ns)) es) edge = OK e)
  ↔ resolvable _nodes edge.
Proof.
  intros Hns. pose proof (get_node_built _nodes ns es) as Hget.
  unfold resolvable. split.
  - intros [e (s & t & Hs & Ht & Hgs & Hgt)%build_edge_OK].
    exists s, t. split; [done|]. split; [done|].
    split; apply not_false_iff_true; intros Hf%Hget; try done; congruence.
  - intros (s & t & Hs & Ht & Hds & Hdt).
    rewrite (build_edge_present _ _ s t) by done.
    destruct (get_node _ s) as [a|] eqn:Ha.
    + destruct (get_node _ t) as [b|] eqn:Hb; [by eexists|].
      apply Hget in Hb; [congruence|done].
    + apply Hget in Ha; [congruence|done].
Qed.

Lemma well_formed_has_read_keys node :
  well_formed_spec node → has_read_keys node.
Proof.
  intros (i & d & ty & nd & td & lc & ? & ? & ? & ? & ? & ? & _).
  by exists i, d, (PStr ty), nd, td, lc.
Qed.

(** X1: construction returns a graph whenever every NodeSpec is well formed
    and every EdgeSpec has a source and a target that name declared ids.
    Whenever it returns a graph, every NodeSpec has the keys that are read,
    [id], [data.type] and the path [data.node.template._type], and every
    EdgeSpec has a source and a target that name declared ids. *)
Theorem build_graph_success_conditions
    (_nodes : list (gmap string pyval)) (_edges : list (gmap string string)) :
  (Forall well_formed_spec _nodes ∧ Forall (resolvable _nodes) _edges →
     ∃ g, _build_graph _nodes _edges = OK g)
  ∧ ((∃ g, _build_graph _nodes _edges = OK g) →
     Forall has_read_keys _nodes ∧ Forall (resolvable _nodes) _edges).
Proof.
  split.
  - intros [Hnodes Hedges].
    destruct (proj2 (mapM_OK_Forall _build_node _nodes)) as [ns Hns].
    { eapply Forall_impl; [exact Hnodes|]. intros s Hs. by apply build_node_OK. }
    destruct (proj2 (mapM_OK_Forall
      (_build_edge (mkGraph ns (seq 0 (length ns)) [])) _edges)) as [es Hes].
    { eapply Forall_impl; [exact Hedges|]. intros e He.
      by apply (build_edge_resolvable _nodes ns []). }
    eexists. by apply (build_graph_OK _nodes _edges ns es).
  - intros [g (ns & es & Hns & Hes & _)%build_graph_stages]. split.
    + eapply Forall_impl;
        [apply (proj1 (mapM_OK_Forall _build_node _nodes)); by exists ns|].
      intros s Hs. by apply well_formed_has_read_keys, build_node_OK.
    + eapply Forall_impl;
        [apply (proj1 (mapM_OK_Forall
           (_build_edge (mkGraph ns (seq 0 (length ns)) [])) _edges));
         by exists es|].
      intros e He. by apply (build_edge_resolvable _nodes ns []).
Qed.

(** ** The built nodes and their edge collections *)


(** What construction leaves of the node built from a NodeSpec: after linking
    and the parameter phase it has the class, id and data it was built with. *)
Lemma built_node_origin ns es r n :
  heap (_build_node_params (link_edges (mkGraph ns (seq 0 (length ns)) es))) !! r
    = Some n →
  ∃ n0, ns !! r = Some n0 ∧ Node.class n = Node.class n0
        ∧ Node.id n = Node.id n0 ∧ Node.data n = Node.data n0.
Proof.
  intros Hn.
  destruct (build_node_params_frame
    (link_edges (mkGraph ns (seq 0 (length ns)) es))) as (Hframe & _).
  destruct (Forall2_lookup_r _ _ _ _ _ Hframe Hn)
    as (n1 & Hn1 & (Hc & Hi & Hd & _)).
  unfold link_edges in Hn1. simpl in Hn1. rewrite link_edges_lookup in Hn1.
  destruct (ns !! r) as [n0|] eqn:Hn0; [|done]. injection Hn1 as <-.
  exists n0. by rewrite Hc, Hi, Hd.
Qed.


(** X3: in a constructed graph the edge collection of a node is exactly the
    list of the graph's edges that touch it, in the order of the edge list,
    an edge from the node to itself listed twice. *)
Theorem built_node_edges_are_incident
    (_nodes : list (gmap string pyval)) (_edges : list (gmap string string))
    (g : Graph) (r : ref) (n : Node.t) :
  _build_graph _nodes _edges = OK g →
  heap g !! r = Some n →
  Node.edges n = linked_to r (edges g).
Proof.
  intros (ns & es & Hns & Hes & ->)%build_graph_stages Hn.
  change (heap (_remove_invalid_nodes ?g)) with (heap g) in Hn.
  change (edges (_remove_invalid_nodes ?g)) with (edges g).
  destruct (build_node_params_frame
    (link_edges (mkGraph ns (seq 0 (length ns)) es))) as (_ & _ & ->).
  simpl. by apply (built_node_edges _nodes ns es).
Qed.

Lemma sum_indicator_seq (a n : nat) :
  sum_list_with (λ r, if decide (a = r) then 1 else 0) (seq 0 n)
  = if decide (a < n) then 1 else 0.
Proof.
  induction n as [|n IH]; [done|].
  rewrite seq_S, sum_list_with_app, IH. simpl.
  repeat case_decide; lia.
Qed.

Lemma sum_list_with_add {A} (f g : A → nat) (l : list A) :
  sum_list_with (λ x, f x + g x) l = sum_list_with f l + sum_list_with g l.
Proof. induction l as [|x l IH]; simpl; lia. Qed.

Lemma sum_list_with_ext {A} (f g : A → nat) (l : list A) :
  (∀ x, f x = g x) → sum_list_with f l = sum_list_with g l.
Proof. intros H. induction l as [|x l IH]; simpl; [done|]. by rewrite H, IH. Qed.

Lemma sum_list_with_seq {A} (f : A → nat) (g : nat → nat) (l : list A) (j : nat) :
  (∀ i x, l !! i = Some x → f x = g (j + i)) →
  sum_list_with f l = sum_list_with g (seq j (length l)).
Proof.
  revert j. induction l as [|x l IH]; intros j H; [done|].
  simpl. rewrite (H 0 x), Nat.add_0_r by done. f_equal.
  apply IH. intros i y Hy. rewrite (H (S i) y) by done. f_equal. lia.
Qed.

Lemma linked_to_cons r edge es :
  linked_to r (edge :: es) = linked_to r [edge] ++ linked_to r es.
Proof. unfold linked_to. simpl. by rewrite !app_nil_r. Qed.

Lemma linked_to_degree_sum (n : nat) (es : list Edge.t) :
  Forall (λ e, Edge.source e < n ∧ Edge.target e < n) es →
  sum_list_with (λ r, length (linked_to r es)) (seq 0 n) = 2 * length es.
Proof.
  induction 1 as [|e es [Hs Ht] _ IH].
  - simpl. induction (seq 0 n); simpl; [done|lia].
  - rewrite (sum_list_with_ext _
      (λ r, ((if decide (Edge.source e = r) then 1 else 0)
             + (if decide (Edge.target e = r) then 1 else 0))
            + length (linked_to r es))).
    + rewrite !sum_list_with_add, IH, !sum_indicator_seq.
      rewrite !decide_True by done. simpl. lia.
    + intros r. rewrite linked_to_cons, length_app. f_equal.
      unfold linked_to. simpl. rewrite app_nil_r, length_app.
      by repeat case_decide.
Qed.

(** X4: in a constructed graph the edge collections of the nodes hold,
    together, twice as many entries as the graph has edges: every edge is
    listed once at its source and once at its target. *)
Theorem built_edge_collections_total
    (_nodes : list (gmap string pyval)) (_edges : list (gmap string string))
    (g : Graph) :
  _build_graph _nodes _edges = OK g →
  sum_list_with (λ n, length (Node.edges n)) (heap g) = 2 * length (edges g).
Proof.
  intros (ns & es & Hns & Hes & ->)%build_graph_stages.
  change (heap (_remove_invalid_nodes ?g)) with (heap g).
  change (edges (_remove_invalid_nodes ?g)) with (edges g).
  destruct (build_node_params_frame
    (link_edges (mkGraph ns (seq 0 (length ns)) es))) as (_ & _ & ->).
  simpl.
  rewrite (sum_list_with_seq _ (λ r, length (linked_to r es)) _ 0).
  - rewrite built_heap_length.
    apply linked_to_degree_sum, Forall_forall. intros e He.
    rewrite (mapM_OK_length _ _ _ Hns).
    by apply (built_edge_ends _nodes _edges ns es).
  - intros r n Hn. simpl. by rewrite (built_node_edges _nodes ns es r n).
Qed.

(** ** Edges, ids and the pruned node list *)

Lemma find_filter {A} (f : A → bool) (P : A → Prop) `{!∀ x, Decision (P x)}
    (l : list A) (x : A) :
  List.find f l = Some x → P x → List.find f (filter P l) = Some x.
Proof.
  induction l as [|a l IH]; [done|]. simpl. intros Hfind HP.
  destruct (f a) eqn:Ha.
  - injection Hfind as ->. rewrite filter_cons_True by done. simpl. by rewrite Ha.
  - rewrite filter_cons. case_decide; [simpl; rewrite Ha|]; by apply IH.
Qed.

Lemma find_ext {A} (f g : A → bool) (l : list A) :
  (∀ x, f x = g x) → List.find f l = List.find g l.
Proof. intros H. induction l as [|a l IH]; simpl; [done|]. by rewrite H, IH. Qed.

Lemma filter_all {A} (P : A → Prop) `{!∀ x, Decision (P x)} (l : list A) :
  Forall P l → filter P l = l.
Proof.
  induction 1 as [|x l Hx _ IH]; [done|]. by rewrite filter_cons_True, IH.
Qed.

(** Linking and the parameter phase do not change which node has which id. *)
Lemma built_has_id ns es i r :
  has_id (heap (_build_node_params
                  (link_edges (mkGraph ns (seq 0 (length ns)) es)))) i r
  = has_id ns i r.
Proof.
  unfold has_id.
  destruct (heap _ !! r) as [n|] eqn:Hn.
  - destruct (built_node_origin _ _ _ _ Hn) as (n0 & -> & _ & -> & _). done.
  - apply lookup_ge_None in Hn. rewrite built_heap_length in Hn.
    by rewrite (lookup_ge_None_2 ns r).
Qed.

(** In a constructed graph, looking up an id that [get_node] resolved to a
    kept node while the edges were built still gives that node. *)
Lemma get_node_after_pruning _nodes _edges ns es i r :
  _build_nodes _nodes = OK ns →
  _build_edges (mkGraph ns (seq 0 (length ns)) []) _edges = OK es →
  get_node (mkGraph ns (seq 0 (length ns)) []) i = Some r →
  (∃ edge, edge ∈ es ∧ incident r edge) →
  get_node (_remove_invalid_nodes
              (_build_node_params (link_edges (mkGraph ns (seq 0 (length ns)) es))))
           i = Some r.
Proof.
  intros Hns Hes Hget Hinc.
  assert (r ∈ nodes (_remove_invalid_nodes
            (_build_node_params (link_edges (mkGraph ns (seq 0 (length ns)) es)))))
    as Hkept.
  { apply (built_graph_keeps _nodes _edges ns es); [done..|].
    split; [|by left].
    unfold get_node in Hget. simpl in Hget.
    apply find_some in Hget as [Hin%list_elem_of_In%elem_of_seq _].
    rewrite <- (mapM_OK_length _ _ _ Hns). lia. }
  unfold get_node in *. simpl heap in *.
  change (heap (_remove_invalid_nodes ?g)) with (heap g).
  rewrite (find_ext _ (has_id ns i)) by (intros x; apply built_has_id).
  unfold _remove_invalid_nodes in *. simpl nodes in *.
  destruct (build_node_params_frame
    (link_edges (mkGraph ns (seq 0 (length ns)) es))) as (_ & Hnodes & _).
  simpl in Hnodes. rewrite Hnodes in *.
  apply find_filter; [done|].
  by apply list_elem_of_filter in Hkept as [? _].
Qed.

(** X5: a constructed graph has one edge per EdgeSpec, in the order of the
    EdgeSpecs, and looking up the source and the target id of an EdgeSpec in
    the finished graph gives the source and the target of its edge: pruning
    never removes or shadows a node that an EdgeSpec names. *)
Theorem built_edges_follow_specs
    (_nodes : list (gmap string pyval)) (_edges : list (gmap string string))
    (g : Graph) :
  _build_graph _nodes _edges = OK g →
  Forall2 (λ spec edge,
             ∃ s t, spec !! "source" = Some s ∧ spec !! "target" = Some t
                    ∧ get_node g s = Some (Edge.source edge)
                    ∧ get_node g t = Some (Edge.target edge))
          _edges (edges g).
Proof.
  intros (ns & es & Hns & Hes & ->)%build_graph_stages.
  change (edges (_remove_invalid_nodes ?g)) with (edges g).
  destruct (build_node_params_frame
    (link_edges (mkGraph ns (seq 0 (length ns)) es))) as (_ & _ & ->).
  simpl edges.
  pose proof (proj1 (mapM_OK_Forall2 _ _ _) Hes) as HF.
  apply Forall2_same_length_lookup. split; [by eapply Forall2_length|].
  intros i spec edge Hspec Hedge.
  pose proof (Forall2_lookup_lr _ _ _ _ _ _ HF Hspec Hedge) as Hbuild.
  apply build_edge_OK in Hbuild as (s & t & Hs & Ht & Hgs & Hgt).
  assert (edge ∈ es) as Hin by (by eapply list_elem_of_lookup_2).
  exists s, t. split; [done|]. split; [done|].
  split; apply (get_node_after_pruning _nodes _edges ns es); try done;
    exists edge; (split; [done|]); [by left|by right].
Qed.

(** The addresses before [x] in the list [0, 1, ...]. *)
Lemma seq_split_before (n x y : nat) (pre post : list nat) :
  seq 0 n = pre ++ x :: post → y < x → y ∈ pre.
Proof.
  intros Hseq Hlt.
  assert (x = length pre) as ->.
  { assert (seq 0 n !! length pre = Some x) as H
      by (by rewrite Hseq, list_lookup_middle).
    apply lookup_seq in H as [-> _]. done. }
  assert (seq 0 n !! y = Some y) as H.
  { apply lookup_seq. split; [done|].
    assert (length (seq 0 n) = length (pre ++ length pre :: post)) as Hl
      by (by rewrite Hseq).
    rewrite length_seq, length_app in Hl. simpl in Hl. lia. }
  rewrite Hseq, lookup_app_l in H by done.
  by eapply list_elem_of_lookup_2.
Qed.

(** X6: when two NodeSpecs declare the same id, every edge that names the id
    is attached to the node of the first one; the node of the later one is the
    end of no edge and is not in the node list of the constructed graph. *)
Theorem built_duplicate_id_pruned
    (_nodes : list (gmap string pyval)) (_edges : list (gmap string string))
    (g : Graph) (r1 r2 : ref) (s1 s2 : gmap string pyval) (i : string) :
  _build_graph _nodes _edges = OK g →
  _nodes !! r1 = Some s1 → _nodes !! r2 = Some s2 →
  r1 < r2 →
  s1 !! "id" = Some (PStr i) → s2 !! "id" = Some (PStr i) →
  (r2 ∉ nodes g) ∧ Forall (λ edge, ¬ incident r2 edge) (edges g).
Proof.
  intros (ns & es & Hns & Hes & ->)%build_graph_stages Hs1 Hs2 Hlt Hi1 Hi2.
  change (edges (_remove_invalid_nodes ?g)) with (edges g).
  destruct (build_node_params_frame
    (link_edges (mkGraph ns (seq 0 (length ns)) es))) as (_ & _ & ->).
  simpl edges.
  pose proof (proj1 (mapM_OK_Forall2 _ _ _) Hns) as HFn.
  destruct (Forall2_lookup_l _ _ _ _ _ HFn Hs1) as (n1 & Hn1 & Hb1).
  destruct (Forall2_lookup_l _ _ _ _ _ HFn Hs2) as (n2 & Hn2 & Hb2).
  apply build_node_fields in Hb1 as (Hid1 & _).
  apply build_node_fields in Hb2 as (Hid2 & _).
  assert (has_id ns i r1 = true) as Hhas1.
  { apply has_id_true. exists n1. split; [done|]. congruence. }
  assert (∀ j r, get_node (mkGraph ns (seq 0 (length ns)) []) j = Some r → r ≠ r2)
    as Hnot.
  { intros j r Hget ->. unfold get_node in Hget. simpl in Hget.
    pose proof (find_first (has_id ns j) (seq 0 (length ns))) as Hf.
    rewrite Hget in Hf. destruct Hf as (pre & post & Hseq & Hhas & Hpre).
    apply has_id_true in Hhas as (n & Hn & Hid).
    assert (j = i) as -> by congruence.
    rewrite (Hpre r1) in Hhas1; [done|].
    by eapply seq_split_before. }
  assert (Forall (λ edge, ¬ incident r2 edge) es) as Hno.
  { apply Forall_forall. intros edge [k Hk]%list_elem_of_lookup_1 Hinc.
    pose proof (proj1 (mapM_OK_Forall2 _ _ _) Hes) as HFe.
    destruct (Forall2_lookup_r _ _ _ _ _ HFe Hk) as (spec & _ & Hbuild).
    apply build_edge_OK in Hbuild as (s & t & _ & _ & Hgs & Hgt).
    destruct Hinc as [Hinc|Hinc].
    - by apply (Hnot s (Edge.source edge)).
    - by apply (Hnot t (Edge.target edge)). }
  split; [|done].
  intros [_ [(edge & Hin & Hinc)|[Hone _]]]%(built_graph_keeps _nodes _edges ns es);
    [| |done..].
  - rewrite Forall_forall in Hno. by apply (Hno edge).
  - apply lookup_lt_Some in Hs2. lia.
Qed.

(** X7: pruning twice is pruning once: what [_remove_invalid_nodes] leaves is
    left alone by a second pass, on every graph state. *)
Theorem remove_invalid_nodes_idempotent (g : Graph) :
  _remove_invalid_nodes (_remove_invalid_nodes g) = _remove_invalid_nodes g.
Proof.
  assert (nodes (_remove_invalid_nodes (_remove_invalid_nodes g))
          = nodes (_remove_invalid_nodes g)) as Hnodes.
  { unfold _remove_invalid_nodes at 1. simpl.
    apply filter_all, Forall_forall. intros r Hr.
    change (_validate_node (_remove_invalid_nodes g) r) with (_validate_node g r).
    unfold _remove_invalid_nodes in Hr |- *. simpl in Hr |- *.
    pose proof Hr as [HP _]%list_elem_of_filter.
    apply orb_True in HP as [Hvalid|Hsingle]; apply orb_True; [by left|right].
    rewrite filter_all; [done|].
    apply Forall_forall. intros r' _. apply orb_True. by right. }
  unfold _remove_invalid_nodes at 1. unfold set_nodes.
  fold (_remove_invalid_nodes (_remove_invalid_nodes g)).
  change (mkGraph (heap (_remove_invalid_nodes g))
            (nodes (_remove_invalid_nodes (_remove_invalid_nodes g)))
            (edges (_remove_invalid_nodes g)) = _remove_invalid_nodes g).
  rewrite Hnodes. by destruct (_remove_invalid_nodes g).
Qed.

(** ** Neighbors, sources and counts *)

Lemma connects_sym n m edge : connects n m edge ↔ connects m n edge.
Proof. unfold connects. intuition congruence. Qed.

(** X8: neighbor counts are symmetric: [m] is counted among the neighbors of
    [n] as often as [n] among the neighbors of [m], and is a key of one
    mapping iff [n] is a key of the other. *)
Theorem get_node_neighbors_symmetric (g : Graph) (n m : ref) :
  get_node_neighbors g n !! m = get_node_neighbors g m !! n.
Proof.
  rewrite !neighbors_lookup_count. unfold count_connecting.
  by rewrite (list_filter_iff (connects n m) (connects m n))
    by (intros e; apply connects_sym).
Qed.

Lemma sources_with_target_count (n m : ref) (es : list Edge.t) :
  length (filter (λ x, x = m)
            (Edge.source <$> filter (λ edge, Edge.target edge = n) es))
  = length (filter (λ edge, Edge.source edge = m ∧ Edge.target edge = n) es).
Proof.
  induction es as [|e es IH]; [done|].
  rewrite !filter_cons.
  destruct (decide (Edge.target e = n)) as [Ht|Ht].
  - rewrite fmap_cons, filter_cons.
    destruct (decide (Edge.source e = m)) as [Hs|Hs].
    + rewrite decide_True by done. simpl. by rewrite IH.
    + rewrite decide_False by tauto. done.
  - rewrite decide_False by tauto. done.
Qed.

Lemma count_connecting_split (n m : ref) (es : list Edge.t) :
  count_connecting n m es
  = length (filter (λ edge, Edge.source edge = m ∧ Edge.target edge = n) es)
    + (if decide (m = n) then 0
       else length (filter (λ edge, Edge.source edge = n ∧ Edge.target edge = m) es)).
Proof.
  unfold count_connecting. destruct (decide (m = n)) as [->|Hne].
  - induction es as [|e es IH]; [done|].
    rewrite !filter_cons. unfold connects at 1.
    destruct (decide (Edge.source e = n ∧ Edge.target e = n)) as [H|H].
    + rewrite decide_True by (unfold connects; tauto). simpl. by rewrite IH.
    + rewrite decide_False by (unfold connects; tauto). done.
  - induction es as [|e es IH]; [done|].
    rewrite !filter_cons. unfold connects at 1.
    destruct (decide (Edge.source e = m ∧ Edge.target e = n)) as [H1|H1];
      destruct (decide (Edge.source e = n ∧ Edge.target e = m)) as [H2|H2].
    + destruct H1, H2. congruence.
    + rewrite decide_True by (unfold connects; tauto). simpl. by rewrite IH.
    + rewrite decide_True by (unfold connects; tauto). simpl. rewrite IH. lia.
    + rewrite decide_False by (unfold connects; tauto). done.
Qed.

(** X9: the count of [m] among the neighbors of [n] is the number of times
    [m] occurs in [get_nodes_with_target(n)] plus, when [m] is another node,
    the number of times [n] occurs in [get_nodes_with_target(m)]: edges into
    [n] from [m] and edges out of [n] into [m]. *)
Theorem get_node_neighbors_in_and_out (g : Graph) (n m : ref) :
  default 0 (get_node_neighbors g n !! m)
  = length (filter (λ x, x = m) (get_nodes_with_target g n))
    + (if decide (m = n) then 0
       else length (filter (λ x, x = n) (get_nodes_with_target g m))).
Proof.
  rewrite neighbors_lookup_count. unfold get_nodes_with_target.
  rewrite !sources_with_target_count.
  rewrite <- count_connecting_split.
  by destruct (count_connecting n m (edges g)).
Qed.

Lemma total_count_insert (k : ref) (c : nat) (nb : gmap ref nat) :
  total_count (<[k := c]> nb) + default 0 (nb !! k) = total_count nb + c.
Proof.
  unfold total_count.
  rewrite <- (insert_delete_eq nb).
  rewrite map_fold_insert_L; [|intros; lia|by rewrite lookup_delete_eq].
  destruct (nb !! k) as [c'|] eqn:Hk; simpl.
  - rewrite <- (insert_delete_id nb k c') at 2 by done.
    rewrite map_fold_insert_L; [lia|intros; lia|by rewrite lookup_delete_eq].
  - rewrite delete_id by done. lia.
Qed.

Lemma total_count_tally (k : ref) (nb : gmap ref nat) :
  total_count (tally k nb) = S (total_count nb).
Proof.
  unfold tally. destruct (nb !! k) as [c|] eqn:Hk.
  - rewrite Hk. pose proof (total_count_insert k (c + 1) nb) as H.
    rewrite Hk in H. simpl in H. lia.
  - rewrite lookup_insert_eq, insert_insert_eq. change (0 + 1) with 1.
    pose proof (total_count_insert k 1 nb) as H.
    rewrite Hk in H. simpl in H. lia.
Qed.

Lemma total_count_step (n : ref) (nb : gmap ref nat) (edge : Edge.t) :
  total_count (neighbors_step n nb edge)
  = total_count nb + (if decide (incident n edge) then 1 else 0).
Proof.
  unfold neighbors_step, incident.
  repeat case_bool_decide; rewrite ?total_count_tally;
    case_decide; try lia; tauto.
Qed.

(** X10: the counts of [get_node_neighbors(n)] add up to the number of edges
    of the graph that have [n] as source or target, an edge from [n] to
    itself counted once. *)
Theorem get_node_neighbors_total (g : Graph) (n : ref) :
  total_count (get_node_neighbors g n) = length (filter (incident n) (edges g)).
Proof.
  unfold get_node_neighbors.
  assert (∀ es nb, total_count (foldl (neighbors_step n) nb es)
                   = total_count nb + length (filter (incident n) es)) as H.
  { induction es as [|e es IH]; intros nb; simpl; [lia|].
    rewrite IH, total_count_step, filter_cons.
    case_decide; simpl; lia. }
  rewrite H. unfold total_count. by rewrite map_fold_empty.
Qed.

(** ** Which error construction raises *)

(** X11: the error of a NodeSpec that lacks a key is the [KeyError] of the
    first key missing on the way [data], [data.type], [data.node],
    [data.node.template], [data.node.template._type]: [type] is read before
    [node], so a [data] without both reports [type]. *)
Theorem build_node_missing_key (node : gmap string pyval) :
  (node !! "data" = None → _build_node node = Raise (KeyError "data"))
  ∧ (∀ d, node !! "data" = Some (PDict d) →
          d !! "type" = None →
          _build_node node = Raise (KeyError "type"))
  ∧ (∀ d ty, node !! "data" = Some (PDict d) →
             d !! "type" = Some ty → d !! "node" = None →
             _build_node node = Raise (KeyError "node"))
  ∧ (∀ d ty nd, node !! "data" = Some (PDict d) →
                d !! "type" = Some ty → d !! "node" = Some (PDict nd) →
                nd !! "template" = None →
                _build_node node = Raise (KeyError "template"))
  ∧ (∀ d ty nd td, node !! "data" = Some (PDict d) →
                   d !! "type" = Some ty → d !! "node" = Some (PDict nd) →
                   nd !! "template" = Some (PDict td) →
                   td !! "_type" = None →
                   _build_node node = Raise (KeyError "_type")).
Proof.
  unfold _build_node. repeat split.
  - intros Hd. by rewrite (dict_getitem_None _ _ Hd), bind_Raise.
  - intros d Hd Hty.
    rewrite (dict_getitem_Some _ _ _ Hd), bind_OK. cbn [getitem].
    by rewrite (dict_getitem_None _ _ Hty), bind_Raise.
  - intros d ty Hd Hty Hn.
    rewrite (dict_getitem_Some _ _ _ Hd), bind_OK. cbn [getitem].
    rewrite (dict_getitem_Some _ _ _ Hty), bind_OK.
    by rewrite (dict_getitem_None _ _ Hn), bind_Raise.
  - intros d ty nd Hd Hty Hn Ht.
    rewrite (dict_getitem_Some _ _ _ Hd), bind_OK. cbn [getitem].
    rewrite (dict_getitem_Some _ _ _ Hty), bind_OK.
    rewrite (dict_getitem_Some _ _ _ Hn), bind_OK. cbn [getitem].
    by rewrite (dict_getitem_None _ _ Ht), bind_Raise.
  - intros d ty nd td Hd Hty Hn Ht Hl.
    rewrite (dict_getitem_Some _ _ _ Hd), bind_OK. cbn [getitem].
    rewrite (dict_getitem_Some _ _ _ Hty), bind_OK.
    rewrite (dict_getitem_Some _ _ _ Hn), bind_OK. cbn [getitem].
    rewrite (dict_getitem_Some _ _ _ Ht), bind_OK. cbn [getitem].
    by rewrite (dict_getitem_None _ _ Hl), bind_Raise.
Qed.

(** X12: construction raises the error of the first NodeSpec that is not well
    formed, whatever the later NodeSpecs and whatever the EdgeSpecs are: every
    node is built before any edge is looked at. *)
Theorem build_graph_first_bad_node
    (_nodes pre post : list (gmap string pyval)) (node : gmap string pyval)
    (_edges : list (gmap string string)) (e : exn) :
  _nodes = pre ++ node :: post →
  Forall well_formed_spec pre →
  _build_node node = Raise e →
  _build_graph _nodes _edges = Raise e.
Proof.
  intros -> Hpre Hnode.
  destruct (proj2 (mapM_OK_Forall _build_node pre)) as [k Hk].
  { eapply Forall_impl; [exact Hpre|]. intros s Hs. by apply build_node_OK. }
  unfold _build_graph, _build_nodes.
  rewrite (mapM_Raise_first _ pre post k node e); [done| |done].
  by apply mapM_OK_Forall2.
Qed.

(** X13: an EdgeSpec without [source] raises [KeyError] on [source], and one
    with [source] but without [target] raises [KeyError] on [target], also
    when its source id is one that no NodeSpec declares: both keys are read
    before either id is looked up. The EdgeSpecs before it must resolve. *)
Theorem build_graph_edge_missing_key
    (_nodes : list (gmap string pyval)) (ns : list Node.t)
    (_edges pre post : list (gmap string string)) (edge : gmap string string) :
  _build_nodes _nodes = OK ns →
  _edges = pre ++ edge :: post →
  Forall (resolvable _nodes) pre →
  (edge !! "source" = None →
     _build_graph _nodes _edges = Raise (KeyError "source"))
  ∧ (is_Some (edge !! "source") → edge !! "target" = None →
     _build_graph _nodes _edges = Raise (KeyError "target")).
Proof.
  intros Hns -> Hpre.
  destruct (proj2 (mapM_OK_Forall
    (_build_edge (mkGraph ns (seq 0 (length ns)) [])) pre)) as [k Hk].
  { eapply Forall_impl; [exact Hpre|]. intros e He.
    by apply (build_edge_resolvable _nodes ns []). }
  apply mapM_OK_Forall2 in Hk.
  unfold _build_graph. rewrite Hns, bind_OK. unfold _build_edges. split.
  - intros Hs. rewrite (mapM_Raise_first _ pre post k edge (KeyError "source"));
      [done..|]. unfold _build_edge. by rewrite Hs.
  - intros [s Hs] Ht.
    rewrite (mapM_Raise_first _ pre post k edge (KeyError "target"));
      [done..|]. unfold _build_edge. by rewrite Hs, Ht.
Qed.

(** ** What the parameter phase writes *)

Lemma inject_llm_loop_lookup llm h ns r n' :
  foldl (inject_llm llm) h ns !! r = Some n' →
  ∃ n, h !! r = Some n ∧ Node.class n' = Node.class n
       ∧ ∀ k, k ≠ "llm" ∨ Node.class n ≠ ToolkitNode →
              Node.params n' !! k = Node.params n !! k.
Proof.
  revert n'. induction ns as [|node ns IH] using rev_ind; intros n' Hn'.
  { exists n'. by simpl in Hn'. }
  rewrite foldl_snoc in Hn'.
  set (h' := foldl (inject_llm llm) h ns) in *.
  unfold inject_llm in Hn'.
  destruct (h' !! node) as [nx|] eqn:Hnx; [|by apply IH].
  unfold Node.isinstance in Hn'. case_bool_decide as Hclass; [|by apply IH].
  destruct (decide (r = node)) as [->|Hne].
  - rewrite list_lookup_alter_eq, Hnx in Hn'. injection Hn' as <-.
    destruct (IH nx Hnx) as (n & Hn & Hc & Hp).
    exists n. split; [done|]. split; [done|].
    intros k [Hk|Hk]; [|congruence].
    simpl. rewrite lookup_insert_ne by done. apply Hp. by left.
  - rewrite list_lookup_alter_ne in Hn' by done. by apply IH.
Qed.

(** X14: the parameter phase writes one thing besides what each node's own
    [_build_params] does: the key ["llm"] of the [params] of [ToolkitNode]s.
    Every other key of every node, and every key of a node of another class,
    is as the nodes' own steps left it, and no node changes class. *)
Theorem build_node_params_writes_only_llm (g : Graph) (r : ref) (n' : Node.t) :
  heap (_build_node_params g) !! r = Some n' →
  ∃ n, run_build_params (heap g) (nodes g) !! r = Some n
       ∧ Node.class n' = Node.class n
       ∧ ∀ k, k ≠ "llm" ∨ Node.class n ≠ ToolkitNode →
              Node.params n' !! k = Node.params n !! k.
Proof.
  unfold _build_node_params.
  rewrite <- (build_params_loop_heap (heap g, None)).
  destruct (foldl build_params_step _ _).2 as [llm|]; simpl.
  - apply inject_llm_loop_lookup.
  - intros Hn'. by exists n'.
Qed.

(** ** Queries on a constructed graph *)

Lemma count_connecting_pos n m es :
  count_connecting n m es ≠ 0 → ∃ edge, edge ∈ es ∧ connects n m edge.
Proof.
  unfold count_connecting. intros H.
  destruct (filter (connects n m) es) as [|e l] eqn:Hf; [done|].
  exists e. apply and_comm, (list_elem_of_filter (connects n m)).
  rewrite Hf. constructor.
Qed.

(** X15: in a constructed graph every key of [get_node_neighbors(n)] and
    every element of [get_nodes_with_target(n)] is in the node list, and so is
    [n] itself when there is such a key or element: the queries never return
    a node that pruning removed. *)
Theorem built_neighbors_are_nodes
    (_nodes : list (gmap string pyval)) (_edges : list (gmap string string))
    (g : Graph) (n m : ref) :
  _build_graph _nodes _edges = OK g →
  is_Some (get_node_neighbors g n !! m) ∨ m ∈ get_nodes_with_target g n →
  n ∈ nodes g ∧ m ∈ nodes g.
Proof.
  intros Hg Hquery.
  assert (∃ edge, edge ∈ edges g ∧ connects n m edge) as (edge & Hin & Hc).
  { destruct Hquery as [[c Hc]|Hm].
    - apply count_connecting_pos. rewrite neighbors_lookup_count in Hc.
      by destruct (count_connecting n m (edges g)).
    - unfold get_nodes_with_target in Hm.
      apply list_elem_of_fmap in Hm as (edge & -> & [Ht Hin]%list_elem_of_filter).
      exists edge. split; [done|]. by right. }
  apply build_graph_stages in Hg as (ns & es & Hns & Hes & ->).
  assert (edge ∈ es) as Hin'.
  { destruct (build_node_params_frame
      (link_edges (mkGraph ns (seq 0 (length ns)) es))) as (_ & _ & Hedges).
    simpl in Hin, Hedges. by rewrite Hedges in Hin. }
  destruct (built_edge_ends _ _ _ _ _ Hns Hes Hin') as [Hs Ht].
  assert (∀ r, incident r edge → r < length _nodes →
    r ∈ nodes (_remove_invalid_nodes (_build_node_params
                 (link_edges (mkGraph ns (seq 0 (length ns)) es))))) as Hkept.
  { intros r Hr Hlt. apply (built_graph_keeps _nodes _edges ns es); [done..|].
    split; [done|]. left. by exists edge. }
  destruct Hc as [[<- <-]|[<- <-]]; split; apply Hkept; try done;
    unfold incident; auto.
Qed.

(** X16: on a node of a constructed graph [get_children_by_node_type] cannot
    fail on [type] or on [node], which construction has read: it raises
    exactly when [data.node] has no [base_classes], a [KeyError] on that key
    for every type string, and with a list of base classes it returns the
    node alone or nothing, by membership among [data.type] and the list. *)
Theorem built_node_children
    (_nodes : list (gmap string pyval)) (_edges : list (gmap string string))
    (g : Graph) (r : ref) (n : Node.t) :
  _build_graph _nodes _edges = OK g →
  heap g !! r = Some n →
  ∃ d ty nd,
    Node.data n = PDict d ∧ d !! "type" = Some ty ∧ d !! "node" = Some (PDict nd)
    ∧ (nd !! "base_classes" = None →
         ∀ t, get_children_by_node_type g r t = Raise (KeyError "base_classes"))
    ∧ (∀ bases, nd !! "base_classes" = Some (PList bases) →
         ∀ t, get_children_by_node_type g r t
              = OK (if in_list t (ty :: bases) then [r] else [])).
Proof.
  intros Hg Hn.
  pose proof Hg as (ns & es & Hns & Hes & Heq)%build_graph_stages.
  assert (∃ s, _nodes !! r = Some s ∧ s !! "data" = Some (Node.data n)
               ∧ well_formed_spec s) as (s & Hs & Hdata & Hwf).
  { subst g. change (heap (_remove_invalid_nodes ?g)) with (heap g) in Hn.
    destruct (built_node_origin _ _ _ _ Hn) as (n0 & Hn0 & _ & _ & ->).
    pose proof (proj1 (mapM_OK_Forall2 _ _ _) Hns) as HF.
    destruct (Forall2_lookup_r _ _ _ _ _ HF Hn0) as (s & Hs & Hb).
    exists s. split; [done|]. split; [by apply build_node_fields in Hb as (_ & ? & _)|].
    apply build_node_OK. by eexists. }
  destruct Hwf as (i & d & ty & nd & td & lc & _ & Hd & Hty & Hnd & _).
  assert (Node.data n = PDict d) as Hdn by congruence.
  exists d, (PStr ty), nd. split; [done|]. split; [done|]. split; [done|].
  unfold get_children_by_node_type, node_types_of. rewrite Hn, Hdn.
  cbn [getitem]. rewrite (dict_getitem_Some _ _ _ Hty), bind_OK, Hnd.
  rewrite bool_decide_eq_true_2 by eauto.
  rewrite (dict_getitem_Some _ _ _ Hnd), bind_OK. cbn [getitem]. split.
  - intros Hb t. by rewrite (dict_getitem_None _ _ Hb), !bind_Raise.
  - intros bases Hb t. by rewrite (dict_getitem_Some _ _ _ Hb), !bind_OK.
Qed.

(** X17: the node list of a constructed graph lists the kept nodes in the
    order of their NodeSpecs and lists none twice. *)
Theorem built_node_list_in_order
    (_nodes : list (gmap string pyval)) (_edges : list (gmap string string))
    (g : Graph) :
  _build_graph _nodes _edges = OK g →
  sublist (nodes g) (seq 0 (length _nodes)) ∧ NoDup (nodes g).
Proof.
  intros (ns & es & Hns & Hes & ->)%build_graph_stages.
  unfold _remove_invalid_nodes. simpl.
  destruct (build_node_params_frame
    (link_edges (mkGraph ns (seq 0 (length ns)) es))) as (_ & -> & _).
  simpl. rewrite (mapM_OK_length _ _ _ Hns). split.
  - apply sublist_filter.
  - apply NoDup_filter, NoDup_seq.
Qed.

(** X18: without EdgeSpecs every node is pruned unless the input is a single
    NodeSpec: a graph built from no edges and two or more NodeSpecs, or from
    nothing at all, has an empty node list. *)
Theorem built_without_edges_is_empty
    (_nodes : list (gmap string pyval)) (g : Graph) :
  _build_graph _nodes [] = OK g →
  length _nodes ≠ 1 →
  nodes g = [].
Proof.
  intros (ns & es & Hns & Hes & ->)%build_graph_stages Hlen.
  pose proof (mapM_OK_length _ _ _ Hes) as Hes_len. simpl in Hes_len.
  apply nil_length_inv in Hes_len as ->.
  apply elem_of_nil_inv.
  intros r [_ [(edge & Hedge & _)|[? _]]]%(built_graph_keeps _nodes [] ns []);
    [| |done..].
  - by inversion Hedge.
  - done.
Qed.

End Graph.

(** ** The statements on the example inputs *)

Local Abbreviation build_example :=
  (_build_graph example_FILE_TOOLS example_NODE_TYPE_MAP example_build_params).

(** C1, counterexample: on the example of the specification, whose NodeSpecs
    have [data] and [data.type] but no [data.node.template._type], graph
    construction raises [KeyError] on the key ["node"]; no graph and no
    Generic node is produced. *)
Lemma build_graph_spec_example_raises :
  (∃ d ty, bare_node_spec "A" "PromptNode" !! "data" = Some (PDict d)
           ∧ d !! "type" = Some ty ∧ lc_type_path (PDict d) = None)
  ∧ build_example spec_example_nodes spec_example_edges = Raise (KeyError "node")
  ∧ ¬ ∃ g, build_example spec_example_nodes spec_example_edges = OK g.
Proof.
  split; [|split].
  - eexists _, _. split; [vm_compute; reflexivity|]. split; vm_compute; reflexivity.
  - vm_compute. reflexivity.
  - intros [g Hg]. vm_compute in Hg. discriminate Hg.
Qed.

Lemma build_graph_missing_lc_type_raises_witness :
  ∃ d ty,
    bare_node_spec "A" "PromptNode" ∈ spec_example_nodes
    ∧ bare_node_spec "A" "PromptNode" !! "data" = Some (PDict d)
    ∧ d !! "type" = Some ty
    ∧ lc_type_path (PDict d) = None
    ∧ ∃ e, build_example spec_example_nodes spec_example_edges = Raise e
           ∧ is_lookup_error e.
Proof.
  exists {[ "type" := PStr "PromptNode" ]}, (PStr "PromptNode").
  assert (bare_node_spec "A" "PromptNode" ∈ spec_example_nodes) as H1
    by apply list_elem_of_here.
  assert (bare_node_spec "A" "PromptNode" !! "data"
          = Some (PDict {[ "type" := PStr "PromptNode" ]})) as H2
    by (vm_compute; reflexivity).
  assert (({[ "type" := PStr "PromptNode" ]} : gmap string pyval) !! "type"
          = Some (PStr "PromptNode")) as H3 by (vm_compute; reflexivity).
  assert (lc_type_path (PDict {[ "type" := PStr "PromptNode" ]}) = None) as H4
    by (vm_compute; reflexivity).
  split; [exact H1|]. split; [exact H2|]. split; [exact H3|]. split; [exact H4|].
  exact (build_graph_missing_lc_type_raises example_FILE_TOOLS
           example_NODE_TYPE_MAP example_build_params
           spec_example_nodes spec_example_edges _ _ _ H1 H2 H3 H4).
Defined.

(** On the flow example the last LLM node is [C], at address 2, and the toolkit
    [B], at address 1, holds a reference to it. *)
Example flow_toolkit_gets_last_llm :
  ∃ g n, build_example flow_nodes flow_edges = OK g
         ∧ is_last_llm (heap g) 2
         ∧ heap g !! 1 = Some n ∧ Node.class n = ToolkitNode
         ∧ Node.params n !! "llm" = Some (ParamNode 2)
         ∧ nodes g = [0; 1; 2].
Proof.
  eexists _, _. split; [vm_compute; reflexivity|].
  split.
  { split; [vm_compute; reflexivity|].
    intros r Hr. unfold is_llm.
    destruct r as [|[|[|[|r]]]]; try lia; vm_compute; reflexivity. }
  split; [vm_compute; reflexivity|].
  split; [reflexivity|]. split; vm_compute; reflexivity.
Qed.

Lemma build_graph_injects_last_llm_witness :
  ∃ g, build_example flow_nodes flow_edges = OK g
       ∧ ((∃ r, is_llm (heap g) r = true) →
            ∃ llm, is_last_llm (heap g) llm
                   ∧ ∀ r n, heap g !! r = Some n → Node.class n = ToolkitNode →
                            Node.params n !! "llm" = Some (ParamNode llm))
       ∧ (∀ llm, is_last_llm (heap g) llm →
            ∀ r n, heap g !! r = Some n → Node.class n = ToolkitNode →
                   Node.params n !! "llm" = Some (ParamNode llm))
       ∧ ((∀ r, is_llm (heap g) r = false) →
          ∃ ns es,
            _build_nodes example_FILE_TOOLS example_NODE_TYPE_MAP flow_nodes = OK ns
            ∧ _build_edges (mkGraph ns (seq 0 (length ns)) []) flow_edges = OK es
            ∧ heap g = run_build_params example_build_params
                         (foldl link_edge ns es) (seq 0 (length ns))).
Proof.
  eexists.
  assert (build_example flow_nodes flow_edges = OK _) as H
    by (vm_compute; reflexivity).
  split; [exact H|].
  exact (build_graph_injects_last_llm example_FILE_TOOLS example_NODE_TYPE_MAP
           example_build_params flow_nodes flow_edges _ H).
Defined.

(** Without an LLM node the toolkit's [params] get no ["llm"] entry. *)
Example toolkit_without_llm :
  ∃ g n, build_example [node_spec "B" "VectorStoreToolkit" "toolkit" [];
                        node_spec "D" "JsonSpec" "json" []]
                       [edge_spec "D" "B"] = OK g
         ∧ heap g !! 0 = Some n ∧ Node.class n = ToolkitNode
         ∧ Node.params n !! "llm" = None.
Proof.
  eexists _, _. split; [vm_compute; reflexivity|].
  split; [vm_compute; reflexivity|]. split; vm_compute; reflexivity.
Qed.

(** The example of the specification with the fields the code needs: both
    nodes stay, [A] is the one node with target [B], and [B] is the one
    neighbor of [A]. *)
Example spec_example_completed :
  ∃ g, build_example [node_spec "A" "PromptNode" "prompt" [];
                      node_spec "B" "ToolkitNode" "toolkit" []]
                     [edge_spec "A" "B"] = OK g
       ∧ nodes g = [0; 1]
       ∧ get_nodes_with_target g 1 = [0]
       ∧ get_node_neighbors g 0 = {[ 1 := 1 ]}.
Proof.
  eexists. split; [vm_compute; reflexivity|].
  split; [vm_compute; reflexivity|]. split; vm_compute; reflexivity.
Qed.

(** One NodeSpec and no EdgeSpec: the node stays. Two NodeSpecs and no
    EdgeSpec: both go. *)
Example single_node_is_kept :
  nodes <$> (match build_example [node_spec "A" "OpenAI" "openai" []] [] with
             | OK g => Some g | Raise _ => None end) = Some [0].
Proof. vm_compute. reflexivity. Qed.

Example two_unconnected_nodes_are_pruned :
  nodes <$> (match build_example [node_spec "A" "OpenAI" "openai" [];
                                  node_spec "B" "JsonSpec" "json" []] [] with
             | OK g => Some g | Raise _ => None end) = Some [].
Proof. vm_compute. reflexivity. Qed.

Lemma build_graph_prunes_unconnected_witness :
  let _nodes := [node_spec "A" "OpenAI" "openai" []] in
  let _edges : list (gmap string string) := [] in
  ∃ g, build_example _nodes _edges = OK g
       ∧ (∀ r, r ∈ nodes g
               ↔ r < length _nodes
                 ∧ ((∃ edge, edge ∈ edges g ∧ incident r edge)
                    ∨ singleton_case (length _nodes) (length _edges)))
       ∧ (length _nodes = 1 → _edges = [] → nodes g = [0])
       ∧ (length _nodes = 2 → _edges = [] → nodes g = []).
Proof.
  intros _nodes _edges. eexists.
  assert (build_example _nodes _edges = OK _) as H by (vm_compute; reflexivity).
  split; [exact H|].
  exact (build_graph_prunes_unconnected example_FILE_TOOLS example_NODE_TYPE_MAP
           example_build_params _nodes _edges _ H).
Defined.

(** On the flow example the file tool [D], which no edge touches, is the one
    node that is pruned. *)
Example flow_prunes_file_tool :
  nodes <$> (match build_example flow_nodes flow_edges with
             | OK g => Some g | Raise _ => None end) = Some [0; 1; 2].
Proof. vm_compute. reflexivity. Qed.

(** An edge to an id that no NodeSpec declares. *)
Example dangling_target_raises :
  build_example flow_nodes [edge_spec "A" "B"; edge_spec "B" "Q"; edge_spec "Z" "A"]
  = Raise (ValueError "Target node Q not found").
Proof. vm_compute. reflexivity. Qed.

Example dangling_source_raises :
  build_example flow_nodes [edge_spec "Z" "Q"]
  = Raise (ValueError "Source node Z not found").
Proof. vm_compute. reflexivity. Qed.

(** C4, counterexample: a dangling EdgeSpec beside a NodeSpec that does not
    build, and one that lacks its target, raise a [KeyError] that names no id
    and is neither of the two [ValueError]s. *)
Lemma dangling_edge_unnamed_error :
  (Exists (dangling [bare_node_spec "A" "PromptNode"]) [edge_spec "A" "Z"]
   ∧ build_example [bare_node_spec "A" "PromptNode"] [edge_spec "A" "Z"]
     = Raise (KeyError "node"))
  ∧ (Exists (dangling flow_nodes) [{[ "source" := "Z" ]}]
     ∧ build_example flow_nodes [{[ "source" := "Z" ]}]
       = Raise (KeyError "target"))
  ∧ ¬ ∃ i, build_example [bare_node_spec "A" "PromptNode"] [edge_spec "A" "Z"]
           = Raise (ValueError (source_not_found i))
           ∨ build_example [bare_node_spec "A" "PromptNode"] [edge_spec "A" "Z"]
             = Raise (ValueError (target_not_found i)).
Proof.
  split; [|split].
  - split; [|vm_compute; reflexivity].
    apply Exists_cons_hd. exists "Z". split; [right|]; vm_compute; reflexivity.
  - split; [|vm_compute; reflexivity].
    apply Exists_cons_hd. exists "Z". split; [left|]; vm_compute; reflexivity.
  - intros [i [H|H]]; vm_compute in H; discriminate H.
Qed.

Lemma build_graph_dangling_edge_raises_witness :
  let _edges := [edge_spec "A" "B"; edge_spec "B" "Q"; edge_spec "Z" "A"] in
  Exists (dangling flow_nodes) _edges
  ∧ (∃ e, build_example flow_nodes _edges = Raise e
          ∧ (is_lookup_error e
             ∨ ∃ i, declares_id flow_nodes i = false
                    ∧ (e = ValueError (source_not_found i)
                       ∨ e = ValueError (target_not_found i))))
  ∧ (∀ ns,
       _build_nodes example_FILE_TOOLS example_NODE_TYPE_MAP flow_nodes = OK ns →
       Forall (λ edge, is_Some (edge !! "source") ∧ is_Some (edge !! "target"))
         _edges →
       ∃ pre edge post s t,
         _edges = pre ++ edge :: post
         ∧ Forall (λ edge', ¬ dangling flow_nodes edge') pre
         ∧ edge !! "source" = Some s ∧ edge !! "target" = Some t
         ∧ ((declares_id flow_nodes s = false
             ∧ build_example flow_nodes _edges
               = Raise (ValueError (source_not_found s)))
            ∨ (declares_id flow_nodes s = true ∧ declares_id flow_nodes t = false
               ∧ build_example flow_nodes _edges
                 = Raise (ValueError (target_not_found t)))))
  ∧ ∀ i j, source_not_found i ≠ target_not_found j.
Proof.
  intros _edges.
  assert (Exists (dangling flow_nodes) _edges) as H.
  { apply Exists_cons_tl, Exists_cons_hd. exists "Q".
    split; [right|]; vm_compute; reflexivity. }
  split; [exact H|].
  exact (build_graph_dangling_edge_raises example_FILE_TOOLS example_NODE_TYPE_MAP
           example_build_params flow_nodes _edges H).
Defined.

(** Two parallel edges and a self-loop. *)
Example parallel_edges_count_two :
  get_node_neighbors
    (mkGraph [] [0; 1] [Edge.mk 0 1; Edge.mk 1 0; Edge.mk 0 0; Edge.mk 2 1]) 0
  = {[ 1 := 2; 0 := 1 ]}.
Proof. vm_compute. reflexivity. Qed.

Example spec_example_neighbors :
  get_node_neighbors (mkGraph [] [0; 1] [Edge.mk 0 1]) 0 = {[ 1 := 1 ]}
  ∧ get_nodes_with_target (mkGraph [] [0; 1] [Edge.mk 0 1]) 1 = [0].
Proof. split; vm_compute; reflexivity. Qed.

(** Lookup of an id that no node has. *)
Example get_node_nonexistent :
  ∃ g, build_example flow_nodes flow_edges = OK g
       ∧ get_node g "nonexistent-id" = None
       ∧ get_node g "C" = Some 2.
Proof. eexists. split; [vm_compute; reflexivity|]. split; vm_compute; reflexivity. Qed.

(** A graph state in which the node list loses both ends of an edge that
    stays in the edge list. *)
Example pruned_endpoint_edge_stays :
  let n := Node.mk GenericNode (PStr "A") (PDict ∅) ∅ [] in
  let g := mkGraph [n; n] [0; 1] [Edge.mk 0 1] in
  nodes (_remove_invalid_nodes g) = []
  ∧ edges (_remove_invalid_nodes g) = [Edge.mk 0 1]
  ∧ heap (_remove_invalid_nodes g) !! 0 = Some n.
Proof. repeat split; vm_compute; reflexivity. Qed.

(** Children by type on a node with one base class. *)
Example prompt_node_children :
  get_children_by_node_type prompt_graph 0 "PromptTemplate" = OK [0]
  ∧ get_children_by_node_type prompt_graph 0 "BasePromptTemplate" = OK [0]
  ∧ get_children_by_node_type prompt_graph 0 "LLMChain" = OK [].
Proof. repeat split; vm_compute; reflexivity. Qed.

(** A [node] entry without [base_classes]: the subscript of line 146
    raises. *)
Example children_without_base_classes :
  let n := Node.mk GenericNode (PStr "P")
             (PDict {[ "type" := PStr "PromptTemplate"; "node" := PDict ∅ ]}) ∅ [] in
  get_children_by_node_type (mkGraph [n] [0] []) 0 "PromptTemplate"
  = Raise (KeyError "base_classes").
Proof. vm_compute. reflexivity. Qed.

(** C8, counterexample: a node built from a NodeSpec without [base_classes]
    raises on its own declared type, where the list with the node alone was
    claimed. *)
Lemma children_of_declared_type_raise :
  ∃ g n d,
    build_example [node_spec_no_bases "P" "PromptTemplate" "prompt"] [] = OK g
    ∧ heap g !! 0 = Some n
    ∧ Node.data n = PDict d
    ∧ d !! "type" = Some (PStr "PromptTemplate")
    ∧ get_children_by_node_type g 0 "PromptTemplate"
      = Raise (KeyError "base_classes")
    ∧ get_children_by_node_type g 0 "PromptTemplate" ≠ OK [0].
Proof.
  eexists _, _, _. split; [vm_compute; reflexivity|].
  split; [vm_compute; reflexivity|]. split; [vm_compute; reflexivity|].
  split; [vm_compute; reflexivity|]. split; [vm_compute; reflexivity|].
  intros H. vm_compute in H. discriminate H.
Qed.

Lemma get_children_by_node_type_self_witness :
  let d : gmap string pyval :=
    {[ "type" := PStr "PromptTemplate";
       "node" := PDict {[ "base_classes" := PList [PStr "BasePromptTemplate"] ]} ]} in
  let ty := PStr "PromptTemplate" in
  let node_type := "BasePromptTemplate" in
  heap prompt_graph !! 0 = Some prompt_node
  ∧ Node.data prompt_node = PDict d
  ∧ d !! "type" = Some ty
  ∧ (∀ bases,
       d !! "node" = None ∧ bases = []
       ∨ (∃ nd, d !! "node" = Some (PDict nd)
                ∧ nd !! "base_classes" = Some (PList bases)) →
       (ty = PStr node_type ∨ PStr node_type ∈ bases →
          get_children_by_node_type prompt_graph 0 node_type = OK [0])
       ∧ (¬ (ty = PStr node_type ∨ PStr node_type ∈ bases) →
          get_children_by_node_type prompt_graph 0 node_type = OK []))
  ∧ (∀ nd, d !! "node" = Some (PDict nd) → nd !! "base_classes" = None →
       get_children_by_node_type prompt_graph 0 node_type
       = Raise (KeyError "base_classes"))
  ∧ ∀ g', heap g' !! 0 = Some prompt_node →
      get_children_by_node_type g' 0 node_type
      = get_children_by_node_type prompt_graph 0 node_type.
Proof.
  intros d ty node_type.
  assert (heap prompt_graph !! 0 = Some prompt_node) as H1 by reflexivity.
  assert (Node.data prompt_node = PDict d) as H2 by reflexivity.
  assert (d !! "type" = Some ty) as H3 by (vm_compute; reflexivity).
  split; [exact H1|]. split; [exact H2|]. split; [exact H3|].
  exact (get_children_by_node_type_self prompt_graph 0 prompt_node node_type
           d ty H1 H2 H3).
Defined.

(** Variant resolution on the example tables. *)
Example get_node_class_examples :
  _get_node_class example_FILE_TOOLS example_NODE_TYPE_MAP (PStr "JsonSpec") (PStr "OpenAI")
    = OK FileToolNode
  ∧ _get_node_class example_FILE_TOOLS example_NODE_TYPE_MAP (PStr "OpenAI") (PStr "x")
    = OK LLMNode
  ∧ _get_node_class example_FILE_TOOLS example_NODE_TYPE_MAP (PStr "x") (PStr "VectorStoreToolkit")
    = OK ToolkitNode
  ∧ _get_node_class example_FILE_TOOLS example_NODE_TYPE_MAP (PStr "x") (PStr "y")
    = OK GenericNode.
Proof. repeat split; vm_compute; reflexivity. Qed.

(** ** Further statements on the example inputs *)


Lemma built_node_edges_are_incident_witness :
  ∃ g n, build_example flow_nodes flow_edges = OK g
         ∧ heap g !! 1 = Some n
         ∧ Node.edges n = linked_to 1 (edges g).
Proof.
  eexists _, _.
  assert (build_example flow_nodes flow_edges = OK _) as H
    by (vm_compute; reflexivity).
  match type of H with
  | _ = OK ?g => assert (heap g !! 1 = Some _) as Hn by (vm_compute; reflexivity)
  end.
  split; [exact H|]. split; [exact Hn|].
  exact (built_node_edges_are_incident example_FILE_TOOLS example_NODE_TYPE_MAP
           example_build_params flow_nodes flow_edges _ 1 _ H Hn).
Defined.

Lemma built_edge_collections_total_witness :
  ∃ g, build_example flow_nodes flow_edges = OK g
       ∧ sum_list_with (λ n, length (Node.edges n)) (heap g) = 2 * length (edges g).
Proof.
  eexists.
  assert (build_example flow_nodes flow_edges = OK _) as H
    by (vm_compute; reflexivity).
  split; [exact H|].
  exact (built_edge_collections_total example_FILE_TOOLS example_NODE_TYPE_MAP
           example_build_params flow_nodes flow_edges _ H).
Defined.

Lemma built_edges_follow_specs_witness :
  ∃ g, build_example flow_nodes flow_edges = OK g
       ∧ Forall2 (λ spec edge,
                    ∃ s t, spec !! "source" = Some s ∧ spec !! "target" = Some t
                           ∧ get_node g s = Some (Edge.source edge)
                           ∧ get_node g t = Some (Edge.target edge))
                 flow_edges (edges g).
Proof.
  eexists.
  assert (build_example flow_nodes flow_edges = OK _) as H
    by (vm_compute; reflexivity).
  split; [exact H|].
  exact (built_edges_follow_specs example_FILE_TOOLS example_NODE_TYPE_MAP
           example_build_params flow_nodes flow_edges _ H).
Defined.

Lemma built_graph_edge_ends_kept_witness :
  ∃ g, build_example flow_nodes flow_edges = OK g
       ∧ Edge.mk 2 1 ∈ edges g
       ∧ Edge.source (Edge.mk 2 1) ∈ nodes g ∧ Edge.target (Edge.mk 2 1) ∈ nodes g.
Proof.
  eexists.
  assert (build_example flow_nodes flow_edges = OK _) as H
    by (vm_compute; reflexivity).
  match type of H with
  | _ = OK ?g => assert (Edge.mk 2 1 ∈ edges g) as Hin
      by (apply list_elem_of_further, list_elem_of_here)
  end.
  split; [exact H|]. split; [exact Hin|].
  exact (built_graph_edge_ends_kept example_FILE_TOOLS example_NODE_TYPE_MAP
           example_build_params flow_nodes flow_edges _ _ H Hin).
Defined.

(** The second NodeSpec with the id ["A"] gets no edge and is pruned. *)
Lemma built_duplicate_id_pruned_witness :
  let _edges := [edge_spec "A" "B"; edge_spec "B" "A"] in
  ∃ g, build_example twin_nodes _edges = OK g
       ∧ twin_nodes !! 0 = Some (node_spec "A" "OpenAI" "openai" [])
       ∧ twin_nodes !! 2 = Some (node_spec "A" "JsonSpec" "json" [])
       ∧ 0 < 2
       ∧ node_spec "A" "OpenAI" "openai" [] !! "id" = Some (PStr "A")
       ∧ node_spec "A" "JsonSpec" "json" [] !! "id" = Some (PStr "A")
       ∧ (2 ∉ nodes g) ∧ Forall (λ edge, ¬ incident 2 edge) (edges g).
Proof.
  intros _edges. eexists.
  assert (build_example twin_nodes _edges = OK _) as H
    by (vm_compute; reflexivity).
  assert (twin_nodes !! 0 = Some (node_spec "A" "OpenAI" "openai" [])) as H0
    by reflexivity.
  assert (twin_nodes !! 2 = Some (node_spec "A" "JsonSpec" "json" [])) as H2
    by reflexivity.
  assert (0 < 2) as Hlt by lia.
  assert (node_spec "A" "OpenAI" "openai" [] !! "id" = Some (PStr "A")) as Hi0
    by (vm_compute; reflexivity).
  assert (node_spec "A" "JsonSpec" "json" [] !! "id" = Some (PStr "A")) as Hi2
    by (vm_compute; reflexivity).
  split; [exact H|]. split; [exact H0|]. split; [exact H2|]. split; [exact Hlt|].
  split; [exact Hi0|]. split; [exact Hi2|].
  exact (built_duplicate_id_pruned example_FILE_TOOLS example_NODE_TYPE_MAP
           example_build_params twin_nodes _edges _ 0 2 _ _ "A"
           H H0 H2 Hlt Hi0 Hi2).
Defined.

Lemma node_spec_well_formed (i ty lc : string) (bases : list string) :
  well_formed_spec example_FILE_TOOLS example_NODE_TYPE_MAP (node_spec i ty lc bases).
Proof.
  exists (PStr i),
    ({[ "type" := PStr ty;
        "node" := PDict {[ "template" := PDict {[ "_type" := PStr lc ]};
                           "base_classes" := PList (PStr <$> bases) ]} ]}),
    ty,
    ({[ "template" := PDict {[ "_type" := PStr lc ]};
        "base_classes" := PList (PStr <$> bases) ]}),
    ({[ "_type" := PStr lc ]}), (PStr lc).
  unfold node_spec. repeat split; try by simplify_map_eq.
  right. right. by eexists.
Qed.

Lemma build_graph_success_conditions_witness :
  (Forall (well_formed_spec example_FILE_TOOLS example_NODE_TYPE_MAP) flow_nodes
   ∧ Forall (resolvable flow_nodes) flow_edges)
  ∧ ∃ g, build_example flow_nodes flow_edges = OK g.
Proof.
  assert (Forall (well_formed_spec example_FILE_TOOLS example_NODE_TYPE_MAP)
            flow_nodes ∧ Forall (resolvable flow_nodes) flow_edges) as H.
  { split.
    - repeat constructor; apply node_spec_well_formed.
    - repeat constructor; eexists _, _; repeat split; vm_compute; reflexivity. }
  split; [exact H|].
  exact (proj1 (build_graph_success_conditions example_FILE_TOOLS
                  example_NODE_TYPE_MAP example_build_params
                  flow_nodes flow_edges) H).
Defined.

(** A malformed NodeSpec is reported although a later EdgeSpec dangles. *)
Lemma build_graph_first_bad_node_witness :
  let pre := [node_spec "A" "OpenAI" "openai" []] in
  let post := [node_spec "C" "OpenAI" "openai" []] in
  let node := bare_node_spec "B" "PromptNode" in
  let _edges := [edge_spec "A" "Z"] in
  pre ++ node :: post = pre ++ node :: post
  ∧ Forall (well_formed_spec example_FILE_TOOLS example_NODE_TYPE_MAP) pre
  ∧ _build_node example_FILE_TOOLS example_NODE_TYPE_MAP node = Raise (KeyError "node")
  ∧ build_example (pre ++ node :: post) _edges = Raise (KeyError "node").
Proof.
  intros pre post node _edges.
  assert (Forall (well_formed_spec example_FILE_TOOLS example_NODE_TYPE_MAP) pre)
    as H1 by (repeat constructor; apply node_spec_well_formed).
  assert (_build_node example_FILE_TOOLS example_NODE_TYPE_MAP node
          = Raise (KeyError "node")) as H2 by (vm_compute; reflexivity).
  split; [reflexivity|]. split; [exact H1|]. split; [exact H2|].
  exact (build_graph_first_bad_node example_FILE_TOOLS example_NODE_TYPE_MAP
           example_build_params _ pre post node _edges _ eq_refl H1 H2).
Defined.

(** An EdgeSpec with an undeclared source and no target. *)
Lemma build_graph_edge_missing_key_witness :
  let pre := [edge_spec "A" "B"] in
  let post := [edge_spec "C" "B"] in
  let edge : gmap string string := {[ "source" := "Z" ]} in
  ∃ ns,
    _build_nodes example_FILE_TOOLS example_NODE_TYPE_MAP flow_nodes = OK ns
    ∧ pre ++ edge :: post = pre ++ edge :: post
    ∧ Forall (resolvable flow_nodes) pre
    ∧ (edge !! "source" = None →
         build_example flow_nodes (pre ++ edge :: post) = Raise (KeyError "source"))
    ∧ (is_Some (edge !! "source") → edge !! "target" = None →
         build_example flow_nodes (pre ++ edge :: post) = Raise (KeyError "target")).
Proof.
  intros pre post edge. eexists.
  assert (_build_nodes example_FILE_TOOLS example_NODE_TYPE_MAP flow_nodes = OK _)
    as H1 by (vm_compute; reflexivity).
  assert (Forall (resolvable flow_nodes) pre) as H2.
  { repeat constructor. exists "A", "B". repeat split; vm_compute; reflexivity. }
  split; [exact H1|]. split; [reflexivity|]. split; [exact H2|].
  exact (build_graph_edge_missing_key example_FILE_TOOLS example_NODE_TYPE_MAP
           example_build_params flow_nodes _ _ pre post edge H1 eq_refl H2).
Defined.

Example edge_without_target_raises :
  build_example flow_nodes [edge_spec "A" "B"; {[ "source" := "Z" ]}]
  = Raise (KeyError "target").
Proof. vm_compute. reflexivity. Qed.

Lemma build_node_params_writes_only_llm_witness :
  ∃ n',
    heap (_build_node_params example_build_params toolkit_and_llm) !! 0 = Some n'
    ∧ ∃ n, run_build_params example_build_params (heap toolkit_and_llm)
             (nodes toolkit_and_llm) !! 0 = Some n
           ∧ Node.class n' = Node.class n
           ∧ ∀ k, k ≠ "llm" ∨ Node.class n ≠ ToolkitNode →
                  Node.params n' !! k = Node.params n !! k.
Proof.
  eexists.
  assert (heap (_build_node_params example_build_params toolkit_and_llm) !! 0
          = Some _) as H by (vm_compute; reflexivity).
  split; [exact H|].
  exact (build_node_params_writes_only_llm example_build_params
           toolkit_and_llm 0 _ H).
Defined.

Lemma built_neighbors_are_nodes_witness :
  ∃ g, build_example flow_nodes flow_edges = OK g
       ∧ (is_Some (get_node_neighbors g 0 !! 1) ∨ 1 ∈ get_nodes_with_target g 0)
       ∧ 0 ∈ nodes g ∧ 1 ∈ nodes g.
Proof.
  eexists.
  assert (build_example flow_nodes flow_edges = OK _) as H
    by (vm_compute; reflexivity).
  match type of H with
  | _ = OK ?g =>
      assert (is_Some (get_node_neighbors g 0 !! 1) ∨ 1 ∈ get_nodes_with_target g 0)
        as Hq by (left; eexists; vm_compute; reflexivity)
  end.
  split; [exact H|]. split; [exact Hq|].
  exact (built_neighbors_are_nodes example_FILE_TOOLS example_NODE_TYPE_MAP
           example_build_params flow_nodes flow_edges _ 0 1 H Hq).
Defined.

Lemma built_node_children_witness :
  ∃ g n, build_example flow_nodes flow_edges = OK g
         ∧ heap g !! 2 = Some n
         ∧ ∃ d ty nd,
             Node.data n = PDict d ∧ d !! "type" = Some ty
             ∧ d !! "node" = Some (PDict nd)
             ∧ (nd !! "base_classes" = None →
                  ∀ t, get_children_by_node_type g 2 t
                       = Raise (KeyError "base_classes"))
             ∧ (∀ bases, nd !! "base_classes" = Some (PList bases) →
                  ∀ t, get_children_by_node_type g 2 t
                       = OK (if in_list t (ty :: bases) then [2] else [])).
Proof.
  eexists _, _.
  assert (build_example flow_nodes flow_edges = OK _) as H
    by (vm_compute; reflexivity).
  match type of H with
  | _ = OK ?g => assert (heap g !! 2 = Some _) as Hn by (vm_compute; reflexivity)
  end.
  split; [exact H|]. split; [exact Hn|].
  exact (built_node_children example_FILE_TOOLS example_NODE_TYPE_MAP
           example_build_params flow_nodes flow_edges _ 2 _ H Hn).
Defined.

Example flow_children_by_type :
  ∃ g, build_example flow_nodes flow_edges = OK g
       ∧ get_children_by_node_type g 2 "BaseChatModel" = OK [2]
       ∧ get_children_by_node_type g 2 "ChatOpenAI" = OK [2]
       ∧ get_children_by_node_type g 2 "OpenAI" = OK [].
Proof. eexists. repeat split; vm_compute; reflexivity. Qed.

Lemma built_node_list_in_order_witness :
  ∃ g, build_example flow_nodes flow_edges = OK g
       ∧ sublist (nodes g) (seq 0 (length flow_nodes)) ∧ NoDup (nodes g).
Proof.
  eexists.
  assert (build_example flow_nodes flow_edges = OK _) as H
    by (vm_compute; reflexivity).
  split; [exact H|].
  exact (built_node_list_in_order example_FILE_TOOLS example_NODE_TYPE_MAP
           example_build_params flow_nodes flow_edges _ H).
Defined.

Lemma built_without_edges_is_empty_witness :
  ∃ g, build_example flow_nodes [] = OK g
       ∧ length flow_nodes ≠ 1
       ∧ nodes g = [].
Proof.
  eexists.
  assert (build_example flow_nodes [] = OK _) as H by (vm_compute; reflexivity).
  assert (length flow_nodes ≠ 1) as Hlen by (simpl; lia).
  split; [exact H|]. split; [exact Hlen|].
  exact (built_without_edges_is_empty example_FILE_TOOLS example_NODE_TYPE_MAP
           example_build_params flow_nodes _ H Hlen).
Defined.

(** The LLM node that a toolkit holds may be one that pruning removed. *)
Example pruned_llm_is_still_injected :
  ∃ g n, build_example [node_spec "L" "OpenAI" "openai" [];
                        node_spec "T" "VectorStoreToolkit" "toolkit" [];
                        node_spec "J" "JsonSpec" "json" []]
                       [edge_spec "J" "T"] = OK g
         ∧ nodes g = [1; 2]
         ∧ heap g !! 1 = Some n
         ∧ Node.params n !! "llm" = Some (ParamNode 0).
Proof.
  eexists _, _. split; [vm_compute; reflexivity|].
  split; [vm_compute; reflexivity|]. split; vm_compute; reflexivity.
Qed.
